(** * SPP Ingredients Allocation App: the allocation calculator

    A shallow embedding of [SPP_Ingredients_Allocation_App.py]:
    - [load_data_from_google_sheet] (lines 36-47, the clean-up of the
      fetched records),
    - [calculate_proportion] (lines 50-63) together with its
      [@st.cache_data] decorator,
    - [allocate_quantity] (lines 65-80).

    Conventions of the model.
    - Numbers.  pandas computes on binary64.  The finite values are
      idealised by exact rationals ([Q], kept in lowest terms), so that
      the rounding error of a sum, a quotient or a product and overflow
      are outside the model; so are signed zeros.  The special values
      that the arithmetic of the program produces from finite ones, the
      two infinities and NaN, are kept, with the IEEE 754 rules for them.
      The quantities of a cleaned table are finite (NaN is dropped at
      line 44).
    - Text.  A character is a code point below 256 ([ascii]), and
      [lower] is Python's [str.lower] on those code points.  The cells
      of the text columns hold text, so [.astype(str)] is the identity.
    - Objects.  DataFrames and Series live in a store and are passed by
      reference; every pandas operation that builds a new object
      allocates, the in-place ones update the store.
    - Dictionaries keep insertion order: association lists.
    - Libraries.  [pd.to_datetime] and [pd.to_numeric] are parameters of
      the loader; the pandas operations and [st.cache_data] are modelled
      after their documented behaviour. *)

From Stdlib Require Import ZArith QArith Qround Qabs String Ascii List Permutation Sorted Lia Lqa.
From stdpp Require Import base list strings sorting.
Import ListNotations.

Local Open Scope Z_scope.
Local Open Scope Q_scope.
Local Open Scope string_scope.
Local Open Scope list_scope.

(** ** Numbers *)

Module Num.

(** A float cell: a finite value, an infinity, or NaN. *)
Inductive num : Type :=
| Fin (q : Q)
| PInf
| NInf
| NaN.

Definition fin (q : Q) : num := Fin (Qred q).

Definition of_Z (z : Z) : num := Fin (inject_Z z).

Definition isna (x : num) : bool :=
  match x with NaN => true | _ => false end.

Definition is_finite (x : num) : bool :=
  match x with Fin _ => true | _ => false end.

(** Sign of a rational: its numerator. *)
Definition Qsgn (q : Q) : Z := Z.sgn (Qnum q).

(** An infinity of the sign of [s] (for [s <> 0]). *)
Definition inf_of_sign (s : Z) : num :=
  if (0 <? s)%Z then PInf else NInf.

Definition add (x y : num) : num :=
  match x, y with
  | NaN, _ | _, NaN => NaN
  | PInf, NInf | NInf, PInf => NaN
  | PInf, _ | _, PInf => PInf
  | NInf, _ | _, NInf => NInf
  | Fin a, Fin b => fin (a + b)
  end.

Definition mul (x y : num) : num :=
  match x, y with
  | NaN, _ | _, NaN => NaN
  | Fin a, Fin b => fin (a * b)
  | Fin a, PInf | PInf, Fin a =>
      if (Qsgn a =? 0)%Z then NaN else inf_of_sign (Qsgn a)
  | Fin a, NInf | NInf, Fin a =>
      if (Qsgn a =? 0)%Z then NaN else inf_of_sign (- Qsgn a)
  | PInf, PInf | NInf, NInf => PInf
  | PInf, NInf | NInf, PInf => NInf
  end.

(** Division never raises: a zero divisor gives NaN for [0 / 0] and an
    infinity of the sign of the dividend otherwise. *)
Definition div (x y : num) : num :=
  match x, y with
  | NaN, _ | _, NaN => NaN
  | Fin a, Fin b =>
      if (Qsgn b =? 0)%Z
      then (if (Qsgn a =? 0)%Z then NaN else inf_of_sign (Qsgn a))
      else fin (a / b)
  | Fin _, (PInf | NInf) => Fin 0
  | PInf, Fin b => if (Qsgn b <? 0)%Z then NInf else PInf
  | NInf, Fin b => if (Qsgn b <? 0)%Z then PInf else NInf
  | (PInf | NInf), (PInf | NInf) => NaN
  end.

(** [x <= y] on floats; false as soon as a NaN is involved. *)
Definition leb (x y : num) : bool :=
  match x, y with
  | NaN, _ | _, NaN => false
  | NInf, _ => true
  | _, PInf => true
  | Fin a, Fin b => Qle_bool a b
  | _, _ => false
  end.

(** [numpy.rint] on a finite value: the nearest integer, a tie going to
    the even neighbour. *)
Definition rint (q : Q) : Z :=
  let f := Qfloor q in
  match Qcompare (q - inject_Z f)%Q (1 # 2)%Q with
  | Lt => f
  | Gt => (f + 1)%Z
  | Eq => if Z.even f then f else (f + 1)%Z
  end.

(** [Series.round(0)] on one cell. *)
Definition round (x : num) : num :=
  match x with
  | Fin q => of_Z (rint q)
  | other => other
  end.

(** Equality of cells up to the representation of a rational. *)
Definition num_eq (x y : num) : Prop :=
  match x, y with
  | Fin a, Fin b => a == b
  | PInf, PInf | NInf, NInf | NaN, NaN => True
  | _, _ => False
  end.

(** [0 <= x] as the comparison [x >= 0] evaluates it. *)
Definition nonneg (x : num) : Prop := leb (Fin 0) x = true.

End Num.
Export Num.

(** ** Text *)

(** [str.lower] on one code point below 256: the letters [A-Z] and the
    Latin-1 capitals [U+00C0-U+00DE] other than the multiplication sign
    [U+00D7] move up by 32. *)
Definition lower_char (c : ascii) : ascii :=
  let n := N_of_ascii c in
  if ((65 <=? n) && (n <=? 90) ||
      (192 <=? n) && (n <=? 222) && negb (n =? 215))%N
  then ascii_of_N (n + 32)
  else c.

Fixpoint lower (s : string) : string :=
  match s with
  | EmptyString => EmptyString
  | String c s' => String (lower_char c) (lower s')
  end.

(** ** The usage table *)

(** A parsed date; [pd.to_datetime] yields no other. *)
Record Timestamp : Type := mkTimestamp {
  year : Z;
  month : Z;
  day : Z
}.


(** One row of the cleaned frame, under the column names of lines 38-40
    and the [QUARTER] column of line 45. *)
Record UsageRecord : Type := mkUsageRecord {
  DATE : Timestamp;
  ITEM_SERIAL : string;
  ITEM_NAME : string;
  ISSUED_TO : string;
  QUANTITY : Q;                (* a number: NaN is dropped at line 44 *)
  UNIT_OF_MEASURE : string;
  ITEM_CATEGORY : string;
  WEEK : string;
  REFERENCE : string;
  DEPARTMENT_CAT : string;
  BATCH_NO : string;
  STORE : string;
  RECEIVED_BY : string;
  QUARTER : Z * Z
}.

Definition Table : Type := list UsageRecord.

(** Python exceptions that the modelled code can raise. *)
Inductive exn : Type :=
| ValueError
| KeyError
| TypeError.

Inductive result (A : Type) : Type :=
| Ok (a : A)
| Raise (e : exn).
Arguments Ok {A} a.
Arguments Raise {A} e.

(** ** [load_data_from_google_sheet], lines 36-47 *)

Module Loader.
Section Loader.

(** [pd.to_datetime(column, errors="coerce")]: the coerced column, by
    position; [None] is NaT.  The whole column is an argument, since pandas
    settles the date format on the column. *)
Variable to_datetime : list string -> nat -> option Timestamp.
(** [pd.to_numeric(column, errors="coerce")]: the coerced column, by
    position; [None] is NaN. *)
Variable to_numeric : list string -> nat -> option Q.














End Loader.





End Loader.

(** ** pandas values *)

(** A Series indexed by department, as [groupby(...)[...].sum()] builds
    it: the name of its index, its own name, and its entries in order. *)
Record Series : Type := mkSeries {
  index_name : string;
  name : string;
  entries : list (string * num)
}.

(** A column of a result frame. *)
Inductive Column : Type :=
| ColText (cells : list string)
| ColNum (cells : list num).

(** A result frame (default integer index): its named columns in order. *)
Definition Frame : Type := list (string * Column).

(** [df[(serial.lower() == identifier) | (name.lower() == identifier)]],
    lines 53-54, on one row; [identifier] is already in lower case. *)
Definition mask (identifier : string) (r : UsageRecord) : bool :=
  String.eqb (lower (ITEM_SERIAL r)) identifier ||
  String.eqb (lower (ITEM_NAME r)) identifier.

(** Adding one row to the groups, which are kept in key order
    ([groupby] sorts its keys). *)
Fixpoint group_add (k : string) (q : Q) (groups : list (string * Q))
  : list (string * Q) :=
  match groups with
  | [] => [(k, q)]
  | (k', s) :: rest =>
      match String.compare k k' with
      | Eq => (k', s + q) :: rest
      | Lt => (k, q) :: groups
      | Gt => (k', s) :: group_add k q rest
      end
  end.

(** [rows.groupby("DEPARTMENT_CAT")["QUANTITY"].sum()]. *)
Definition groupby_sum (rows : Table) : Series :=
  let groups :=
    fold_left (fun g r => group_add (DEPARTMENT_CAT r) (QUANTITY r) g) rows [] in
  {| index_name := "DEPARTMENT_CAT";
     name := "QUANTITY";
     entries := map (fun g => (fst g, fin (snd g))) groups |}.

(** [Series.sum()]: NaN entries are skipped. *)
Definition series_sum (s : Series) : num :=
  fold_left add (List.filter (fun v => negb (isna v)) (map snd (entries s))) (Fin 0).

Definition series_map (f : num -> num) (s : Series) : Series :=
  {| index_name := index_name s;
     name := name s;
     entries := map (fun e => (fst e, f (snd e))) (entries s) |}.

(** Ascending insertion before the first entry that is not smaller. *)
Fixpoint insert_asc (x : string * num) (l : list (string * num))
  : list (string * num) :=
  match l with
  | [] => [x]
  | y :: l' => if leb (snd x) (snd y) then x :: y :: l' else y :: insert_asc x l'
  end.

Definition argsort_asc (l : list (string * num)) : list (string * num) :=
  foldr insert_asc [] l.

(** [sort_values(ascending=False)]: the entries that are not NaN are
    reversed, sorted ascending and reversed again; the NaN entries follow
    ([na_position="last"]).  The order pandas gives to equal values is
    that of its sorting routine; nothing below depends on it. *)
Definition sort_values_desc (l : list (string * num)) : list (string * num) :=
  let non_nans := List.filter (fun e => negb (isna (snd e))) l in
  let nans := List.filter (fun e => isna (snd e)) l in
  rev (argsort_asc (rev non_nans)) ++ nans.

(** [Series.reset_index()]. *)
Definition reset_index (s : Series) : Frame :=
  [(index_name s, ColText (map fst (entries s)));
   (name s, ColNum (map snd (entries s)))].

Fixpoint frame_get (col : string) (f : Frame) : option Column :=
  match f with
  | [] => None
  | (n, c) :: f' => if String.eqb n col then Some c else frame_get col f'
  end.

(** [frame[col] = c]: replaces the column of that name, or appends. *)
Fixpoint frame_set (col : string) (c : Column) (f : Frame) : Frame :=
  match f with
  | [] => [(col, c)]
  | (n, c') :: f' =>
      if String.eqb n col then (n, c) :: f' else (n, c') :: frame_set col c f'
  end.

Fixpoint rename_label (mapping : list (string * string)) (n : string) : string :=
  match mapping with
  | [] => n
  | (old, new) :: m' => if String.eqb old n then new else rename_label m' n
  end.

(** [frame.rename(columns=mapping)]. *)
Definition frame_rename (mapping : list (string * string)) (f : Frame) : Frame :=
  map (fun nc => (rename_label mapping (fst nc), snd nc)) f.

(** [dict[key] = v]: an existing key keeps its place. *)
Fixpoint dict_set {V : Type} (key : string) (v : V) (d : list (string * V))
  : list (string * V) :=
  match d with
  | [] => [(key, v)]
  | (k, v') :: d' =>
      if String.eqb k key then (k, v) :: d' else (k, v') :: dict_set key v d'
  end.

Fixpoint dict_get {V : Type} (key : string) (d : list (string * V)) : option V :=
  match d with
  | [] => None
  | (k, v) :: d' => if String.eqb k key then Some v else dict_get key d'
  end.

(** ** The object store *)

Global Instance Q_eq_dec : EqDecision Q.
Proof. solve_decision. Defined.
Global Instance Timestamp_eq_dec : EqDecision Timestamp.
Proof. solve_decision. Defined.
Global Instance UsageRecord_eq_dec : EqDecision UsageRecord.
Proof. solve_decision. Defined.

Inductive object : Type :=
| ODataFrame (t : Table)
| OSeries (s : Series)
| OFrame (f : Frame).

(** A reference to an object. *)
Definition loc : Type := nat.

(** The arguments a cached call was made with, and its pickled result. *)
Definition memo_entry : Type := (Table * string) * option Frame.

Record store : Type := mkStore {
  heap : list object;
  memo : list memo_entry
}.

(** Computations on the store that may raise. *)
Definition M (A : Type) : Type := store -> result A * store.

Global Instance M_ret : MRet M := fun A a s => (Ok a, s).
Global Instance M_bind : MBind M := fun A B f m s =>
  match m s with
  | (Ok a, s') => f a s'
  | (Raise e, s') => (Raise e, s')
  end.

Definition raise {A : Type} (e : exn) : M A := fun s => (Raise e, s).

(** A new object; its reference is fresh. *)
Definition alloc (o : object) : M loc := fun s =>
  (Ok (length (heap s)), {| heap := heap s ++ [o]; memo := memo s |}).

Definition read (l : loc) : M object := fun s =>
  match heap s !! l with
  | Some o => (Ok o, s)
  | None => (Raise KeyError, s)
  end.

Definition write (l : loc) (o : object) : M unit := fun s =>
  (Ok tt, {| heap := <[l := o]> (heap s); memo := memo s |}).

Definition read_dataframe (l : loc) : M Table :=
  o ← read l;
  match o with ODataFrame t => mret t | _ => raise TypeError end.

Definition read_series (l : loc) : M Series :=
  o ← read l;
  match o with OSeries s => mret s | _ => raise TypeError end.

Definition read_frame (l : loc) : M Frame :=
  o ← read l;
  match o with OFrame f => mret f | _ => raise TypeError end.

(** The pandas methods the program calls, on references. *)
Module pd.

(** [df[mask]]: a new frame. *)
Definition getitem_mask (df : loc) (m : UsageRecord -> bool) : M loc :=
  t ← read_dataframe df;
  alloc (ODataFrame (List.filter m t)).

(** [df.empty]. *)
Definition empty (df : loc) : M bool :=
  t ← read_dataframe df;
  mret (match t with [] => true | _ :: _ => false end).

(** [df.groupby("DEPARTMENT_CAT")["QUANTITY"].sum()]: a new Series. *)
Definition groupby_sum (df : loc) : M loc :=
  t ← read_dataframe df;
  alloc (OSeries (groupby_sum t)).

(** [s.sum()]. *)
Definition sum (s : loc) : M num :=
  v ← read_series s;
  mret (series_sum v).

(** [s / x]: a new Series. *)
Definition truediv (s : loc) (x : num) : M loc :=
  v ← read_series s;
  alloc (OSeries (series_map (fun y => div y x) v)).

(** [s * x]: a new Series. *)
Definition mul (s : loc) (x : num) : M loc :=
  v ← read_series s;
  alloc (OSeries (series_map (fun y => Num.mul y x) v)).

(** [s.sort_values(ascending=False, inplace=True)]: updates [s]. *)
Definition sort_values_inplace (s : loc) : M unit :=
  v ← read_series s;
  write s (OSeries {| index_name := index_name v;
                      name := name v;
                      entries := sort_values_desc (entries v) |}).

(** [s.reset_index()]: a new frame. *)
Definition reset_index (s : loc) : M loc :=
  v ← read_series s;
  alloc (OFrame (reset_index v)).

(** [frame[col]], read as a column of numbers. *)
Definition getitem (frame : loc) (col : string) : M (list num) :=
  f ← read_frame frame;
  match frame_get col f with
  | None => raise KeyError
  | Some (ColText _) => raise TypeError
  | Some (ColNum cells) => mret cells
  end.

(** [frame[col] = cells]: updates [frame]. *)
Definition setitem (frame : loc) (col : string) (cells : list num) : M unit :=
  f ← read_frame frame;
  write frame (OFrame (frame_set col (ColNum cells) f)).

(** [frame.rename(columns=mapping, inplace=True)]: updates [frame]. *)
Definition rename (frame : loc) (mapping : list (string * string)) : M unit :=
  f ← read_frame frame;
  write frame (OFrame (frame_rename mapping f)).

End pd.

(** ** [calculate_proportion], lines 50-63 *)

(** The function as written, before its decorator. *)
Definition calculate_proportion_body (df : loc) (identifier : string)
  : M (option loc) :=
  let identifier := lower identifier in
  filtered_df ← pd.getitem_mask df (mask identifier);
  is_empty ← pd.empty filtered_df;
  if (is_empty : bool) then mret None
  else
    usage_summary ← pd.groupby_sum filtered_df;
    total ← pd.sum usage_summary;
    quotient ← pd.truediv usage_summary total;
    proportions ← pd.mul quotient (of_Z 100);
    pd.sort_values_inplace proportions;;
    shares ← pd.reset_index proportions;
    mret (Some shares).

Fixpoint memo_lookup (key : Table * string) (m : list memo_entry)
  : option (option Frame) :=
  match m with
  | [] => None
  | (k, v) :: m' => if decide (k = key) then Some v else memo_lookup key m'
  end.

Definition get_memo : M (list memo_entry) := fun s => (Ok (memo s), s).

Definition memo_add (e : memo_entry) : M unit := fun s =>
  (Ok tt, {| heap := heap s; memo := e :: memo s |}).

(** Pickling the value a function returned. *)
Definition pickle (r : option loc) : M (option Frame) :=
  match r with
  | None => mret None
  | Some l => f ← read_frame l; mret (Some f)
  end.

(** Unpickling builds a new object. *)
Definition unpickle (v : option Frame) : M (option loc) :=
  match v with
  | None => mret None
  | Some f => l ← alloc (OFrame f); mret (Some l)
  end.

(** [@st.cache_data]: the key is made of the argument values (the frame is
    read to hash it).  On a hit the pickled result is unpickled, so the
    caller gets a copy; on a miss the function runs, its result is pickled
    into the memo and the computed object itself is returned. *)
Definition cache_data (f : loc -> string -> M (option loc))
  (df : loc) (identifier : string) : M (option loc) :=
  t ← read_dataframe df;
  m ← get_memo;
  match memo_lookup (t, identifier) m with
  | Some v => unpickle v
  | None =>
      r ← f df identifier;
      v ← pickle r;
      memo_add ((t, identifier), v);;
      mret r
  end.

(** The decorated function, the one the program calls. *)
Definition calculate_proportion : loc -> string -> M (option loc) :=
  cache_data calculate_proportion_body.

(** ** [allocate_quantity], lines 65-80 *)

(** The loop of lines 67-78 over [item_quantities.items()]; [allocations]
    holds references to the frames. *)
Fixpoint allocate_loop (df : loc) (items : list (string * Q))
  (allocations : list (string * loc)) : M (list (string * loc)) :=
  match items with
  | [] => mret allocations
  | (item, quantity) :: items' =>
      proportions ← calculate_proportion df item;
      match proportions with
      | None => allocate_loop df items' allocations
      | Some proportions =>
          share ← pd.getitem proportions "QUANTITY";
          pd.setitem proportions "Allocated Quantity"
            (map (fun p => Num.mul (div p (of_Z 100)) (Fin quantity)) share);;
          allocated ← pd.getitem proportions "Allocated Quantity";
          pd.setitem proportions "Allocated Quantity" (map round allocated);;
          pd.rename proportions [("DEPARTMENT_CAT", "Department");
                                 ("QUANTITY", "Proportion (%)")];;
          allocate_loop df items' (dict_set item proportions allocations)
      end
  end.

Definition allocate_quantity (df : loc) (item_quantities : list (string * Q))
  : M (list (string * loc)) :=
  allocate_loop df item_quantities [].

(** ** A session *)

(** The store once the table is loaded: the table is object 0. *)
Definition session (t : Table) : store :=
  {| heap := [ODataFrame t]; memo := [] |}.

(** The value behind an optional reference. *)
Definition deref_frame (s : store) (r : option loc) : result (option Frame) :=
  match r with
  | None => Ok None
  | Some l =>
      match heap s !! l with
      | Some (OFrame f) => Ok (Some f)
      | _ => Raise TypeError
      end
  end.

Fixpoint deref_dict (s : store) (d : list (string * loc))
  : result (list (string * Frame)) :=
  match d with
  | [] => Ok []
  | (k, l) :: d' =>
      match heap s !! l, deref_dict s d' with
      | Some (OFrame f), Ok r => Ok ((k, f) :: r)
      | _, _ => Raise TypeError
      end
  end.

(** What a call [calculate_proportion(table, identifier)] returns in a
    fresh session: the spec's [compute_shares]. *)
Definition compute_shares (t : Table) (identifier : string)
  : result (option Frame) :=
  match calculate_proportion 0%nat identifier (session t) with
  | (Ok r, s) => deref_frame s r
  | (Raise e, _) => Raise e
  end.

(** What a call [allocate_quantity(table, requests)] returns in a fresh
    session: the spec's [allocate]. *)
Definition allocate (t : Table) (requests : list (string * Q))
  : result (list (string * Frame)) :=
  match allocate_quantity 0%nat requests (session t) with
  | (Ok d, s) => deref_dict s d
  | (Raise e, _) => Raise e
  end.

(** ** Vocabulary of the properties *)

(** Two texts are equal when case is ignored: same length and, position by
    position, the same character up to case. *)
Fixpoint caseless_eqb (a b : string) : bool :=
  match a, b with
  | EmptyString, EmptyString => true
  | String c a', String d b' =>
      Ascii.eqb (lower_char c) (lower_char d) && caseless_eqb a' b'
  | _, _ => false
  end.

(** The records an identifier designates: serial or name, case ignored. *)
Definition designates (identifier : string) (r : UsageRecord) : bool :=
  caseless_eqb (ITEM_SERIAL r) identifier || caseless_eqb (ITEM_NAME r) identifier.

Definition matching (t : Table) (identifier : string) : Table :=
  List.filter (designates identifier) t.

Definition Qsum (l : list Q) : Q := fold_right Qplus 0 l.

(** Total quantity of a list of records. *)
Definition total (rows : Table) : Q := Qsum (map QUANTITY rows).

(** Total quantity of the records of one department. *)
Definition dept_total (d : string) (rows : Table) : Q :=
  total (List.filter (fun r => String.eqb (DEPARTMENT_CAT r) d) rows).

(** [group_sum / total_sum * 100]. *)
Definition percentage (group_sum total_sum : Q) : num :=
  Num.mul (div (Fin group_sum) (Fin total_sum)) (of_Z 100).

(** Descending order of a column, NaN cells last. *)
Definition desc (a b : num) : Prop := leb b a = true \/ isna b = true.
Definition descending (l : list num) : Prop := StronglySorted desc l.

(** Sum of a column. *)
Definition column_sum (l : list num) : num := fold_right add (Fin 0) l.

(** A column sums to 100 within the tolerance 0.01. *)
Definition sums_to_100 (l : list num) : Prop :=
  exists s, column_sum l = Fin s /\ Qabs (s - 100) <= 1 # 100.

(** The shape of the frame [calculate_proportion] returns. *)
Definition shares_frame (depts : list string) (pcts : list num) : Frame :=
  [("DEPARTMENT_CAT", ColText depts); ("QUANTITY", ColNum pcts)].

(** The shape of the frames [allocate_quantity] returns. *)
Definition allocation_frame (depts : list string) (pcts allocated : list num)
  : Frame :=
  [("Department", ColText depts);
   ("Proportion (%)", ColNum pcts);
   ("Allocated Quantity", ColNum allocated)].

(** ** Values computed by the calls *)

(** The Series that line 61 leaves in [proportions], if line 56 is passed. *)
Definition proportions (t : Table) (identifier : string)
  : option (list (string * num)) :=
  match List.filter (mask (lower identifier)) t with
  | [] => None
  | rows =>
      let usage_summary := groupby_sum rows in
      let total := series_sum usage_summary in
      Some (sort_values_desc
              (map (fun e => (fst e, Num.mul (div (snd e) total) (of_Z 100)))
                   (entries usage_summary)))
  end.

Definition shares (t : Table) (identifier : string) : option Frame :=
  match proportions t identifier with
  | None => None
  | Some e => Some (shares_frame (map fst e) (map snd e))
  end.

Definition allocated (quantity : Q) (p : num) : num :=
  round (Num.mul (div p (of_Z 100)) (Fin quantity)).

Fixpoint allocations (t : Table) (items : list (string * Q))
  (acc : list (string * Frame)) : list (string * Frame) :=
  match items with
  | [] => acc
  | (item, quantity) :: items' =>
      match proportions t item with
      | None => allocations t items' acc
      | Some e =>
          allocations t items'
            (dict_set item
               (allocation_frame (map fst e) (map snd e)
                  (map (allocated quantity) (map snd e)))
               acc)
      end
  end.

(** The memo holds results of the function only. *)
Definition memo_ok (m : list memo_entry) : Prop :=
  forall t identifier v,
    memo_lookup (t, identifier) m = Some v -> v = shares t identifier.

(** Store [s'] extends store [s]: the objects of [s] are where they were. *)
Definition extends (s s' : store) : Prop :=
  exists extra, heap s' = heap s ++ extra.

(** A sample record. *)
Definition sample (serial item dept : string) (q : Q) : UsageRecord :=
  {| DATE := mkTimestamp 2024 3 15;
     ITEM_SERIAL := serial;
     ITEM_NAME := item;
     ISSUED_TO := "kitchen";
     QUANTITY := q;
     UNIT_OF_MEASURE := "kg";
     ITEM_CATEGORY := "dry goods";
     WEEK := "11";
     REFERENCE := "";
     DEPARTMENT_CAT := dept;
     BATCH_NO := "";
     STORE := "main";
     RECEIVED_BY := "";
     QUARTER := (2024, 1)%Z |}.

(** ** Auxiliary notions of the proofs *)

(** Keys in strictly increasing order. *)
Definition keys_sorted (g : list (string * Q)) : Prop :=
  StronglySorted (fun a b => String.compare a b = Lt) (map fst g).

(** The sum recorded for a key ([0] when the key is absent). *)
Fixpoint group_value (d : string) (g : list (string * Q)) : Q :=
  match g with
  | [] => 0
  | (k, s) :: g' => if String.eqb k d then s + group_value d g' else group_value d g'
  end.

(** The groups behind [groupby_sum]. *)
Definition groups_from (g : list (string * Q)) (rows : Table) : list (string * Q) :=
  fold_left (fun g r => group_add (DEPARTMENT_CAT r) (QUANTITY r) g) rows g.

(** The entries of the Series before line 61 sorts them. *)
Definition unsorted (rows : Table) : list (string * num) :=
  map (fun e => (fst e, Num.mul (div (snd e) (series_sum (groupby_sum rows))) (of_Z 100)))
      (entries (groupby_sum rows)).

(** Ascending order of the entries of a Series. *)
Definition asc (a b : string * num) : Prop := leb (snd a) (snd b) = true.

(** No entry is NaN. *)
Definition no_nan (l : list (string * num)) : Prop :=
  Forall (fun e => isna (snd e) = false) l.

(** The table of the allocation scenario: two records for item X,
    department A with 30 and department B with 70. *)
Definition scenario : Table :=
  [sample "X" "Flour" "A" 30; sample "X" "Flour" "B" 70].

(** The frame that line 53 binds to [filtered_df] when the call runs in a
    fresh session: the first object the call allocates. *)
Definition selected (t : Table) (identifier : string) : option Table :=
  match heap (snd (calculate_proportion 0%nat identifier (session t))) !! 1%nat with
  | Some (ODataFrame rows) => Some rows
  | _ => None
  end.

(** A table whose only item has serial [abc123]. *)
Definition widgets : Table :=
  [sample "abc123" "Widget" "A" 10; sample "abc123" "Widget" "B" 30].



(** The rational behind a finite cell. *)
Definition value_of (x : num) : Q :=
  match x with Fin q => q | _ => 0 end.

(** A table whose records of item X all have quantity 0. *)
Definition zeros : Table :=
  [sample "X" "Flour" "A" 0; sample "X" "Flour" "B" 0].

(** ** The private key, line 22 *)

(** [os.getenv("GOOGLE_PRIVATE_KEY").replace("\\n", "\n")] on the text of
    the variable: every backslash followed by [n] becomes a line feed,
    from left to right. *)
Fixpoint private_key (s : string) : string :=
  match s with
  | EmptyString => EmptyString
  | String c rest =>
      match rest with
      | String d rest' =>
          if Ascii.eqb c "\"%char && Ascii.eqb d "n"%char
          then String "010"%char (private_key rest')
          else String c (private_key rest)
      | EmptyString => String c EmptyString
      end
  end.

(** The two characters [\n] occur in [s]. *)
Fixpoint has_escaped_newline (s : string) : bool :=
  match s with
  | EmptyString => false
  | String c rest =>
      match rest with
      | String d _ =>
          Ascii.eqb c "\"%char && Ascii.eqb d "n"%char || has_escaped_newline rest
      | EmptyString => false
      end
  end.

(** ** The page, lines 112-136 *)

(** [Series.unique().tolist()]: the values, each at its first place. *)
Fixpoint unique (l : list string) : list string :=
  match l with
  | [] => []
  | x :: l' => x :: List.filter (fun y => negb (String.eqb y x)) (unique l')
  end.

(** Line 113: the options of the multiselect. *)
Definition unique_item_names (data : loc) : M (list string) :=
  t ← read_dataframe data;
  mret (unique (map ITEM_NAME t)).

(** Lines 117-123: one number input per selected item, in order. *)
Definition read_quantities (selected_identifiers : list string)
  (number_input : string -> Q) : list (string * Q) :=
  fold_left (fun item_quantities item =>
               dict_set item (number_input item) item_quantities)
            selected_identifiers [].

(** What the page shows below the button. *)
Inductive shown (A : Type) : Type :=
| Tables (result : list (string * A))   (* one [st.dataframe] per entry *)
| ErrorNoMatch                          (* [st.error], line 134 *)
| WarningInvalid.                       (* [st.warning], line 136 *)
Arguments Tables {A} result.
Arguments ErrorNoMatch {A}.
Arguments WarningInvalid {A}.

(** [any(q > 0 for q in item_quantities.values())]. *)
Definition any_positive (item_quantities : list (string * Q)) : bool :=
  existsb (fun q => negb (Qle_bool q 0)) (map snd item_quantities).

(** Lines 125-136, the button being pressed; the widgets hand over the
    selection and the numbers typed. *)
Definition on_calculate (data : loc) (selected_identifiers : list string)
  (number_input : string -> Q) : M (shown loc) :=
  let item_quantities :=
    match selected_identifiers with
    | [] => []
    | _ :: _ => read_quantities selected_identifiers number_input
    end in
  if match selected_identifiers with [] => false | _ :: _ => true end
     && any_positive item_quantities
  then
    result ← allocate_quantity data item_quantities;
    match result with
    | _ :: _ => mret (Tables result)
    | [] => mret ErrorNoMatch
    end
  else mret WarningInvalid.

(** What a press of the button shows in a fresh session. *)
Definition click (t : Table) (selected_identifiers : list string)
  (number_input : string -> Q) : result (shown Frame) :=
  match on_calculate 0%nat selected_identifiers number_input (session t) with
  | (Ok (Tables d), s) =>
      match deref_dict s d with
      | Ok r => Ok (Tables r)
      | Raise e => Raise e
      end
  | (Ok ErrorNoMatch, _) => Ok ErrorNoMatch
  | (Ok WarningInvalid, _) => Ok WarningInvalid
  | (Raise e, _) => Raise e
  end.

(** The options of the multiselect in a fresh session. *)
Definition options (t : Table) : result (list string) :=
  fst (unique_item_names 0%nat (session t)).

(** ** Further vocabulary *)


(** The identifier has shares. *)
Definition has_match (t : Table) (identifier : string) : bool :=
  match matching t identifier with [] => false | _ :: _ => true end.

(** A table with two items and three departments. *)
Definition pantry : Table :=
  [sample "F1" "Flour" "bakery" 6; sample "S1" "Sugar" "pastry" 4;
   sample "F1" "Flour" "pastry" 3; sample "F1" "Flour" "bakery" 1].

(** * Properties *)

(** ** The store *)

Lemma lookup_snoc {A : Type} (l : list A) (x : A) :
  (l ++ [x]) !! length l = Some x.
Proof. by apply list_lookup_middle. Qed.

Lemma insert_snoc {A : Type} (l : list A) (x y : A) :
  <[length l := y]> (l ++ [x]) = l ++ [y].
Proof.
  replace (length l) with (length l + 0)%nat by lia.
  by rewrite insert_app_r.
Qed.

(** Running the primitives. *)

Lemma run_bind {A B : Type} (m : M A) (f : A -> M B) (s s' : store) (a : A) :
  m s = (Ok a, s') -> (m ≫= f) s = f a s'.
Proof. intros H. unfold mbind, M_bind. by rewrite H. Qed.

Lemma run_read_dataframe (h : list object) (m : list memo_entry) (l : loc) (t : Table) :
  h !! l = Some (ODataFrame t) ->
  read_dataframe l (mkStore h m) = (Ok t, mkStore h m).
Proof.
  intros H. unfold read_dataframe.
  erewrite run_bind by (unfold read; simpl; by rewrite H). reflexivity.
Qed.

Lemma run_read_series (h : list object) (m : list memo_entry) (l : loc) (v : Series) :
  h !! l = Some (OSeries v) ->
  read_series l (mkStore h m) = (Ok v, mkStore h m).
Proof.
  intros H. unfold read_series.
  erewrite run_bind by (unfold read; simpl; by rewrite H). reflexivity.
Qed.

Lemma run_read_frame (h : list object) (m : list memo_entry) (l : loc) (f : Frame) :
  h !! l = Some (OFrame f) ->
  read_frame l (mkStore h m) = (Ok f, mkStore h m).
Proof.
  intros H. unfold read_frame.
  erewrite run_bind by (unfold read; simpl; by rewrite H). reflexivity.
Qed.

Lemma run_getitem_mask h m df t p :
  h !! df = Some (ODataFrame t) ->
  pd.getitem_mask df p (mkStore h m) =
    (Ok (length h), mkStore (h ++ [ODataFrame (List.filter p t)]) m).
Proof.
  intros H. unfold pd.getitem_mask.
  erewrite run_bind by (by apply run_read_dataframe). reflexivity.
Qed.

Lemma run_empty h m df t :
  h !! df = Some (ODataFrame t) ->
  pd.empty df (mkStore h m) =
    (Ok (match t with [] => true | _ :: _ => false end), mkStore h m).
Proof.
  intros H. unfold pd.empty.
  erewrite run_bind by (by apply run_read_dataframe). reflexivity.
Qed.

Lemma run_groupby_sum h m df t :
  h !! df = Some (ODataFrame t) ->
  pd.groupby_sum df (mkStore h m) =
    (Ok (length h), mkStore (h ++ [OSeries (groupby_sum t)]) m).
Proof.
  intros H. unfold pd.groupby_sum.
  erewrite run_bind by (by apply run_read_dataframe). reflexivity.
Qed.

Lemma run_sum h m l v :
  h !! l = Some (OSeries v) ->
  pd.sum l (mkStore h m) = (Ok (series_sum v), mkStore h m).
Proof.
  intros H. unfold pd.sum.
  erewrite run_bind by (by apply run_read_series). reflexivity.
Qed.

Lemma run_truediv h m l v x :
  h !! l = Some (OSeries v) ->
  pd.truediv l x (mkStore h m) =
    (Ok (length h), mkStore (h ++ [OSeries (series_map (fun y => div y x) v)]) m).
Proof.
  intros H. unfold pd.truediv.
  erewrite run_bind by (by apply run_read_series). reflexivity.
Qed.

Lemma run_mul h m l v x :
  h !! l = Some (OSeries v) ->
  pd.mul l x (mkStore h m) =
    (Ok (length h), mkStore (h ++ [OSeries (series_map (fun y => Num.mul y x) v)]) m).
Proof.
  intros H. unfold pd.mul.
  erewrite run_bind by (by apply run_read_series). reflexivity.
Qed.

Lemma run_sort_values_inplace h m l v :
  h !! l = Some (OSeries v) ->
  pd.sort_values_inplace l (mkStore h m) =
    (Ok tt, mkStore (<[l := OSeries {| index_name := index_name v;
                                       name := name v;
                                       entries := sort_values_desc (entries v) |}]> h) m).
Proof.
  intros H. unfold pd.sort_values_inplace.
  erewrite run_bind by (by apply run_read_series). reflexivity.
Qed.

Lemma run_reset_index h m l v :
  h !! l = Some (OSeries v) ->
  pd.reset_index l (mkStore h m) =
    (Ok (length h), mkStore (h ++ [OFrame (reset_index v)]) m).
Proof.
  intros H. unfold pd.reset_index.
  erewrite run_bind by (by apply run_read_series). reflexivity.
Qed.

Lemma run_getitem h m l f col cells :
  h !! l = Some (OFrame f) ->
  frame_get col f = Some (ColNum cells) ->
  pd.getitem l col (mkStore h m) = (Ok cells, mkStore h m).
Proof.
  intros H Hc. unfold pd.getitem.
  erewrite run_bind by (by apply run_read_frame). by rewrite Hc.
Qed.

Lemma run_setitem h m l f col cells :
  h !! l = Some (OFrame f) ->
  pd.setitem l col cells (mkStore h m) =
    (Ok tt, mkStore (<[l := OFrame (frame_set col (ColNum cells) f)]> h) m).
Proof.
  intros H. unfold pd.setitem.
  erewrite run_bind by (by apply run_read_frame). reflexivity.
Qed.

Lemma run_rename h m l f mapping :
  h !! l = Some (OFrame f) ->
  pd.rename l mapping (mkStore h m) =
    (Ok tt, mkStore (<[l := OFrame (frame_rename mapping f)]> h) m).
Proof.
  intros H. unfold pd.rename.
  erewrite run_bind by (by apply run_read_frame). reflexivity.
Qed.

(** The undecorated function: it allocates, and writes to an object of
    its own only. *)
Lemma body_run (h : list object) (m : list memo_entry) (df : loc) (t : Table)
  (identifier : string) :
  h !! df = Some (ODataFrame t) ->
  exists rest,
    let extra := ODataFrame (List.filter (mask (lower identifier)) t) :: rest in
    calculate_proportion_body df identifier (mkStore h m) =
      match shares t identifier with
      | None => (Ok None, mkStore (h ++ extra) m)
      | Some f => (Ok (Some (length (h ++ extra))),
                   mkStore ((h ++ extra) ++ [OFrame f]) m)
      end.
Proof.
  intros Hdf. unfold calculate_proportion_body, shares, proportions.
  erewrite run_bind by (by apply run_getitem_mask).
  erewrite run_bind by (apply run_empty, lookup_snoc).
  destruct (List.filter (mask (lower identifier)) t) as [|r rows] eqn:E.
  - by exists [].
  - erewrite run_bind by (apply run_groupby_sum, lookup_snoc).
    erewrite run_bind by (apply run_sum, lookup_snoc).
    erewrite run_bind by (apply run_truediv, lookup_snoc).
    erewrite run_bind by (apply run_mul, lookup_snoc).
    erewrite run_bind by (apply run_sort_values_inplace, lookup_snoc).
    rewrite insert_snoc.
    erewrite run_bind by (apply run_reset_index, lookup_snoc).
    eexists [_; _; _]. cbv zeta.
    replace (h ++ [_; _; _; _]) with
      ((((h ++ [ODataFrame (r :: rows)]) ++
           [OSeries (groupby_sum (r :: rows))]) ++
          [OSeries (series_map
                      (fun y => div y (series_sum (groupby_sum (r :: rows))))
                      (groupby_sum (r :: rows)))]) ++
         [OSeries
            {| index_name := "DEPARTMENT_CAT";
               name := "QUANTITY";
               entries :=
                 sort_values_desc
                   (entries
                      (series_map (fun y => Num.mul y (of_Z 100))
                         (series_map
                            (fun y => div y (series_sum (groupby_sum (r :: rows))))
                            (groupby_sum (r :: rows))))) |}]).
    2: { repeat rewrite <- app_assoc. reflexivity. }
    unfold mret, M_ret. f_equal. f_equal. f_equal. f_equal.
    unfold reset_index, shares_frame; simpl.
    by rewrite !map_map.
Qed.

Lemma memo_ok_nil : memo_ok [].
Proof. intros t i v H. discriminate H. Qed.

Lemma memo_ok_cons (m : list memo_entry) (t : Table) (identifier : string) :
  memo_ok m -> memo_ok (((t, identifier), shares t identifier) :: m).
Proof.
  intros Hm t' i' v. simpl.
  destruct (decide ((t, identifier) = (t', i'))) as [E|E].
  - intros [= <-]. by inversion E.
  - apply Hm.
Qed.

(** The decorated function from a store whose memo is sound: it returns
    a fresh frame holding [shares], keeps every object in place, and
    leaves a sound memo that knows the call. *)
Lemma cached_run (h : list object) (m : list memo_entry) (df : loc) (t : Table)
  (identifier : string) :
  h !! df = Some (ODataFrame t) ->
  memo_ok m ->
  exists extra m',
    calculate_proportion df identifier (mkStore h m) =
      match shares t identifier with
      | None => (Ok None, mkStore (h ++ extra) m')
      | Some f => (Ok (Some (length (h ++ extra))),
                   mkStore ((h ++ extra) ++ [OFrame f]) m')
      end
    /\ memo_ok m'
    /\ memo_lookup (t, identifier) m' = Some (shares t identifier).
Proof.
  intros Hdf Hm. unfold calculate_proportion, cache_data.
  erewrite run_bind by (by apply run_read_dataframe).
  erewrite run_bind by reflexivity. simpl.
  destruct (memo_lookup (t, identifier) m) as [v|] eqn:Hv.
  - pose proof (Hm _ _ _ Hv) as ->.
    exists [], m. rewrite app_nil_r. split; [|done].
    destruct (shares t identifier); reflexivity.
  - destruct (body_run h m df t identifier Hdf) as [rest Hb]. cbv zeta in Hb.
    eexists (_ :: rest), (((t, identifier), shares t identifier) :: m).
    split; [|split].
    + destruct (shares t identifier) as [f|].
      * erewrite run_bind by exact Hb.
        erewrite run_bind.
        2: { unfold pickle. erewrite run_bind by (apply run_read_frame, lookup_snoc).
             reflexivity. }
        reflexivity.
      * erewrite run_bind by exact Hb. reflexivity.
    + by apply memo_ok_cons.
    + simpl. by rewrite decide_True.
Qed.

Lemma compute_shares_denotes (t : Table) (identifier : string) :
  compute_shares t identifier = Ok (shares t identifier).
Proof.
  unfold compute_shares, session.
  destruct (cached_run [ODataFrame t] [] 0%nat t identifier eq_refl memo_ok_nil)
    as (extra & m' & Hrun & _).
  rewrite Hrun. destruct (shares t identifier) as [f|]; [|reflexivity].
  unfold deref_frame. cbn [heap]. by rewrite lookup_snoc.
Qed.

(** Dereferencing the dictionary of results. *)

Lemma deref_dict_app (h extra : list object) (m m' : list memo_entry)
  (d : list (string * loc)) (acc : list (string * Frame)) :
  deref_dict (mkStore h m) d = Ok acc ->
  deref_dict (mkStore (h ++ extra) m') d = Ok acc.
Proof.
  revert acc. induction d as [|[k l] d IH]; intros acc; simpl; [done|].
  destruct (h !! l) as [o|] eqn:Hl; [|done].
  rewrite (lookup_app_l_Some _ _ _ _ Hl).
  destruct o; try done.
  destruct (deref_dict (mkStore h m) d) as [r|]; [|done].
  by rewrite (IH r eq_refl).
Qed.

Lemma deref_dict_set (s : store) (d : list (string * loc))
  (acc : list (string * Frame)) (k : string) (l : loc) (f : Frame) :
  deref_dict s d = Ok acc ->
  heap s !! l = Some (OFrame f) ->
  deref_dict s (dict_set k l d) = Ok (dict_set k f acc).
Proof.
  intros Hd Hl. revert acc Hd.
  induction d as [|[k' l'] d IH]; intros acc; simpl.
  - intros [= <-]. simpl. by rewrite Hl.
  - destruct (heap s !! l') as [[| |f']|] eqn:Hl'; try done.
    destruct (deref_dict s d) as [r|] eqn:Hr; [|done].
    intros [= <-]. simpl.
    destruct (String.eqb k' k); simpl.
    + by rewrite Hl, Hr.
    + by rewrite Hl', (IH r eq_refl).
Qed.

(** One turn of the loop on an identifier with shares: the three updates
    of lines 72-76 hit the fresh frame only. *)
Lemma allocate_loop_some (df : loc) (item : string) (quantity : Q)
  (items : list (string * Q)) (d : list (string * loc))
  (h h1 : list object) (m m1 : list memo_entry) (e : list (string * num)) :
  calculate_proportion df item (mkStore h m) =
    (Ok (Some (length h1)),
     mkStore (h1 ++ [OFrame (shares_frame (map fst e) (map snd e))]) m1) ->
  allocate_loop df ((item, quantity) :: items) d (mkStore h m) =
    allocate_loop df items (dict_set item (length h1) d)
      (mkStore (h1 ++ [OFrame (allocation_frame (map fst e) (map snd e)
                                 (map (allocated quantity) (map snd e)))]) m1).
Proof.
  intros Hrun. simpl.
  erewrite run_bind by exact Hrun. cbv beta iota.
  erewrite run_bind by (eapply run_getitem; [apply lookup_snoc|reflexivity]).
  erewrite run_bind by (eapply run_setitem; apply lookup_snoc).
  rewrite insert_snoc.
  erewrite run_bind by (eapply run_getitem; [apply lookup_snoc|reflexivity]).
  erewrite run_bind by (eapply run_setitem; apply lookup_snoc).
  rewrite insert_snoc.
  erewrite run_bind by (eapply run_rename; apply lookup_snoc).
  rewrite insert_snoc.
  unfold allocation_frame, allocated. simpl. by rewrite map_map.
Qed.

Lemma allocate_loop_none (df : loc) (item : string) (quantity : Q)
  (items : list (string * Q)) (d : list (string * loc)) (s s1 : store) :
  calculate_proportion df item s = (Ok None, s1) ->
  allocate_loop df ((item, quantity) :: items) d s = allocate_loop df items d s1.
Proof. intros Hrun. simpl. by erewrite run_bind by exact Hrun. Qed.

(** The loop of [allocate_quantity]. *)
Lemma allocate_loop_run (t : Table) (df : loc) (items : list (string * Q)) :
  forall (h : list object) (m : list memo_entry) (d : list (string * loc))
         (acc : list (string * Frame)),
    h !! df = Some (ODataFrame t) ->
    memo_ok m ->
    deref_dict (mkStore h m) d = Ok acc ->
    exists d' extra m',
      allocate_loop df items d (mkStore h m) = (Ok d', mkStore (h ++ extra) m')
      /\ deref_dict (mkStore (h ++ extra) m') d' = Ok (allocations t items acc)
      /\ memo_ok m'.
Proof.
  induction items as [|[item quantity] items IH]; intros h m d acc Hdf Hm Hd.
  - exists d, [], m. rewrite app_nil_r. by repeat split.
  - destruct (cached_run h m df t item Hdf Hm) as (extra & m1 & Hrun & Hm1 & _).
    unfold shares in Hrun. cbn [allocations].
    destruct (proportions t item) as [e|].
    + rewrite (allocate_loop_some _ _ quantity items d _ _ _ _ _ Hrun).
      set (f := allocation_frame _ _ _).
      destruct (IH ((h ++ extra) ++ [OFrame f]) m1
                  (dict_set item (length (h ++ extra)) d)
                  (dict_set item f acc)) as (d' & extra' & m' & Hl & Hd' & Hm').
      * by apply lookup_app_l_Some, lookup_app_l_Some.
      * done.
      * apply deref_dict_set; [|apply lookup_snoc].
        rewrite <- app_assoc. by eapply deref_dict_app.
      * exists d', (extra ++ [OFrame f] ++ extra'), m'.
        clear IH. repeat rewrite <- app_assoc in *. by repeat split.
    + rewrite (allocate_loop_none _ _ quantity items d _ _ Hrun).
      destruct (IH (h ++ extra) m1 d acc) as (d' & extra' & m' & Hl & Hd' & Hm').
      * by apply lookup_app_l_Some.
      * done.
      * by eapply deref_dict_app.
      * exists d', (extra ++ extra'), m'.
        clear IH. repeat rewrite <- app_assoc in *. by repeat split.
Qed.

Lemma allocate_denotes (t : Table) (requests : list (string * Q)) :
  allocate t requests = Ok (allocations t requests []).
Proof.
  unfold allocate, allocate_quantity, session.
  destruct (allocate_loop_run t 0%nat requests [ODataFrame t] [] [] []
              eq_refl memo_ok_nil eq_refl) as (d' & extra & m' & Hl & Hd & _).
  by rewrite Hl.
Qed.

(** ** Text *)

Lemma caseless_eqb_lower (a b : string) :
  caseless_eqb a b = String.eqb (lower a) (lower b).
Proof.
  revert b. induction a as [|c a IH]; intros [|d b]; simpl; try reflexivity.
  rewrite IH. destruct (Ascii.eqb_spec (lower_char c) (lower_char d)); reflexivity.
Qed.

Lemma caseless_eqb_eq (a b : string) :
  caseless_eqb a b = true <-> lower a = lower b.
Proof. rewrite caseless_eqb_lower. apply String.eqb_eq. Qed.

Lemma mask_designates (identifier : string) (r : UsageRecord) :
  mask (lower identifier) r = designates identifier r.
Proof. unfold mask, designates. by rewrite !caseless_eqb_lower. Qed.

Lemma filter_mask_matching (t : Table) (identifier : string) :
  List.filter (mask (lower identifier)) t = matching t identifier.
Proof.
  unfold matching. apply filter_ext. intros r. apply mask_designates.
Qed.

Lemma designates_lower (i1 i2 : string) (r : UsageRecord) :
  lower i1 = lower i2 -> designates i1 r = designates i2 r.
Proof. intros H. by rewrite <- !mask_designates, H. Qed.

Lemma proportions_lower (t : Table) (i1 i2 : string) :
  lower i1 = lower i2 -> proportions t i1 = proportions t i2.
Proof. intros H. unfold proportions. by rewrite H. Qed.

Lemma proportions_none (t : Table) (identifier : string) :
  proportions t identifier = None <-> matching t identifier = [].
Proof.
  unfold proportions. rewrite filter_mask_matching.
  destruct (matching t identifier); split; intros; done.
Qed.

(** ** Grouping *)

Lemma string_compare_refl (a : string) : String.compare a a = Eq.
Proof.
  induction a as [|c a IH]; simpl; [reflexivity|].
  unfold Ascii.compare. by rewrite N.compare_refl.
Qed.

Lemma string_lt_trans (a b c : string) :
  String.compare a b = Lt -> String.compare b c = Lt -> String.compare a c = Lt.
Proof.
  intros Hab Hbc.
  assert (Hle : String.le a c).
  { transitivity b; unfold String.le, String.leb; [by rewrite Hab|by rewrite Hbc]. }
  unfold String.le, String.leb in Hle.
  destruct (String.compare a c) eqn:Hac; [|done|done].
  apply String.compare_eq_iff in Hac as ->.
  rewrite String.compare_antisym, Hbc in Hab. discriminate.
Qed.

Lemma group_add_keys (k : string) (q : Q) (g : list (string * Q)) (d : string) :
  In d (map fst (group_add k q g)) <-> d = k \/ In d (map fst g).
Proof.
  induction g as [|[k' s] g IH]; simpl; [intuition congruence|].
  destruct (String.compare k k') eqn:E; simpl.
  - apply String.compare_eq_iff in E as ->. intuition congruence.
  - intuition congruence.
  - rewrite IH. intuition congruence.
Qed.

Lemma group_add_sorted (k : string) (q : Q) (g : list (string * Q)) :
  keys_sorted g -> keys_sorted (group_add k q g).
Proof.
  unfold keys_sorted. induction g as [|[k' s] g IH]; simpl; intros Hs.
  - repeat constructor.
  - apply StronglySorted_inv in Hs as [Hs Hall].
    destruct (String.compare k k') eqn:E; simpl.
    + by constructor.
    + constructor; [by constructor|].
      constructor; [done|].
      eapply Forall_impl; [exact Hall|].
      intros x Hx. by eapply string_lt_trans.
    + constructor; [by apply IH|].
      apply List.Forall_forall. intros x Hx. apply group_add_keys in Hx as [->|Hx].
      * rewrite String.compare_antisym, E. reflexivity.
      * rewrite List.Forall_forall in Hall. by apply Hall.
Qed.

Lemma keys_sorted_NoDup (g : list (string * Q)) :
  keys_sorted g -> List.NoDup (map fst g).
Proof.
  unfold keys_sorted. induction (map fst g) as [|k l IH]; intros Hs.
  - constructor.
  - apply StronglySorted_inv in Hs as [Hs Hall]. constructor; [|by apply IH].
    intros Hin. rewrite List.Forall_forall in Hall.
    specialize (Hall _ Hin). by rewrite string_compare_refl in Hall.
Qed.

Lemma group_add_value (k : string) (q : Q) (g : list (string * Q)) (d : string) :
  group_value d (group_add k q g) ==
  group_value d g + (if String.eqb k d then q else 0).
Proof.
  induction g as [|[k' s] g IH]; simpl.
  - destruct (String.eqb k d); ring.
  - destruct (String.compare k k') eqn:E; simpl.
    + apply String.compare_eq_iff in E as ->.
      destruct (String.eqb k' d); ring.
    + destruct (String.eqb k d), (String.eqb k' d); ring.
    + destruct (String.eqb k' d); rewrite IH; ring.
Qed.

Lemma group_add_total (k : string) (q : Q) (g : list (string * Q)) :
  Qsum (map snd (group_add k q g)) == Qsum (map snd g) + q.
Proof.
  induction g as [|[k' s] g IH]; simpl.
  - ring.
  - destruct (String.compare k k'); simpl; [ring|ring|rewrite IH; ring].
Qed.

Lemma groups_from_keys (rows : Table) (g : list (string * Q)) (d : string) :
  In d (map fst (groups_from g rows)) <->
  In d (map fst g) \/ exists r, In r rows /\ DEPARTMENT_CAT r = d.
Proof.
  revert g. induction rows as [|r rows IH]; intros g; simpl.
  - split; [tauto|]. intros [H|(r & [] & _)]. exact H.
  - unfold groups_from in *. simpl. rewrite IH, group_add_keys. split.
    + intros [[->|H]|(r' & Hr' & E)]; eauto 6.
    + intros [H|(r' & [->|Hr'] & E)]; eauto 6.
Qed.

Lemma groups_from_sorted (rows : Table) (g : list (string * Q)) :
  keys_sorted g -> keys_sorted (groups_from g rows).
Proof.
  revert g. induction rows as [|r rows IH]; intros g Hg; [exact Hg|].
  apply IH. by apply group_add_sorted.
Qed.

Lemma groups_from_value (rows : Table) (g : list (string * Q)) (d : string) :
  group_value d (groups_from g rows) == group_value d g + dept_total d rows.
Proof.
  revert g. induction rows as [|r rows IH]; intros g.
  - unfold dept_total, total. simpl. ring.
  - unfold groups_from in *. simpl fold_left. rewrite IH, group_add_value.
    unfold dept_total, total. simpl.
    destruct (String.eqb (DEPARTMENT_CAT r) d); simpl; ring.
Qed.

Lemma groups_from_total (rows : Table) (g : list (string * Q)) :
  Qsum (map snd (groups_from g rows)) == Qsum (map snd g) + total rows.
Proof.
  revert g. induction rows as [|r rows IH]; intros g.
  - unfold total. simpl. ring.
  - unfold groups_from in *. simpl fold_left. rewrite IH, group_add_total.
    unfold total. simpl. ring.
Qed.

Lemma group_value_absent (d : string) (g : list (string * Q)) :
  ~ In d (map fst g) -> group_value d g = 0.
Proof.
  induction g as [|[k s] g IH]; simpl; [done|]. intros H.
  destruct (String.eqb_spec k d) as [->|Hne]; [tauto|]. apply IH. tauto.
Qed.

Lemma group_value_present (d : string) (s : Q) (g : list (string * Q)) :
  List.NoDup (map fst g) -> In (d, s) g -> group_value d g == s.
Proof.
  induction g as [|[k s'] g IH]; simpl; [done|].
  intros Hnd [[= -> ->]|Hin]; apply List.NoDup_cons_iff in Hnd as [Hk Hnd].
  - rewrite String.eqb_refl, group_value_absent by exact Hk. ring.
  - destruct (String.eqb_spec k d) as [->|Hne].
    + exfalso. apply Hk. change d with (fst (d, s)). by apply in_map.
    + by apply IH.
Qed.

(** The groups of a list of rows: one per department present, holding the
    total of that department. *)
Lemma groups_spec (rows : Table) :
  let g := groups_from [] rows in
  List.NoDup (map fst g)
  /\ (forall d, In d (map fst g) <-> exists r, In r rows /\ DEPARTMENT_CAT r = d)
  /\ (forall d s, In (d, s) g -> s == dept_total d rows)
  /\ Qsum (map snd g) == total rows.
Proof.
  assert (Hs : keys_sorted (groups_from [] rows)).
  { apply groups_from_sorted. constructor. }
  apply keys_sorted_NoDup in Hs. repeat split.
  - exact Hs.
  - intros H. apply groups_from_keys in H as [[]|H]. exact H.
  - intros H. apply groups_from_keys. by right.
  - intros d s Hin. rewrite <- (group_value_present d s _ Hs Hin).
    rewrite groups_from_value. simpl. ring.
  - rewrite groups_from_total. simpl. ring.
Qed.

(** ** Numbers *)

Lemma Qsgn_zero (a : Q) : (Qsgn a =? 0)%Z = true <-> a == 0.
Proof.
  unfold Qsgn, Qeq. simpl. rewrite Z.eqb_eq, Z.sgn_null_iff. lia.
Qed.


Lemma Qsgn_comp (a b : Q) : a == b -> Qsgn a = Qsgn b.
Proof.
  unfold Qsgn, Qeq. destruct a as [n p], b as [n' p']. simpl. intros H.
  destruct n, n'; simpl; try reflexivity; lia.
Qed.

Lemma num_eq_refl (x : num) : num_eq x x.
Proof. destruct x; simpl; done. Qed.

Lemma num_eq_sym (x y : num) : num_eq x y -> num_eq y x.
Proof. destruct x, y; simpl; done. Qed.

Lemma num_eq_trans (x y z : num) : num_eq x y -> num_eq y z -> num_eq x z.
Proof. destruct x, y, z; simpl; try done; intros H1 H2; by rewrite H1. Qed.

Lemma fin_num_eq (q : Q) : num_eq (fin q) (Fin q).
Proof. simpl. apply Qred_correct. Qed.

Lemma add_comp (x x' y y' : num) :
  num_eq x x' -> num_eq y y' -> num_eq (add x y) (add x' y').
Proof.
  destruct x, x', y, y'; simpl; try done.
  intros H1 H2. rewrite !Qred_correct. by rewrite H1, H2.
Qed.

Lemma mul_comp (x x' y y' : num) :
  num_eq x x' -> num_eq y y' -> num_eq (Num.mul x y) (Num.mul x' y').
Proof.
  destruct x as [a| | |], x' as [a'| | |], y as [b| | |], y' as [b'| | |];
    simpl; try done; intros H1 H2;
    rewrite ?(Qsgn_comp _ _ H1), ?(Qsgn_comp _ _ H2);
    try apply num_eq_refl.
  rewrite !Qred_correct. by rewrite H1, H2.
Qed.

Lemma div_comp (x x' y y' : num) :
  num_eq x x' -> num_eq y y' -> num_eq (div x y) (div x' y').
Proof.
  destruct x as [a| | |], x' as [a'| | |], y as [b| | |], y' as [b'| | |];
    simpl; try done; intros H1 H2;
    rewrite ?(Qsgn_comp _ _ H1), ?(Qsgn_comp _ _ H2);
    try apply num_eq_refl.
  destruct (Qsgn b' =? 0)%Z; [apply num_eq_refl|].
  simpl. rewrite !Qred_correct. by rewrite H1, H2.
Qed.

Lemma rint_comp (a b : Q) : a == b -> rint a = rint b.
Proof.
  intros H. unfold rint. rewrite (Qfloor_comp _ _ H).
  assert (E : Qcompare (a - inject_Z (Qfloor b)) (1 # 2) =
              Qcompare (b - inject_Z (Qfloor b)) (1 # 2)).
  { by rewrite H. }
  by rewrite E.
Qed.

Lemma round_comp (x y : num) : num_eq x y -> num_eq (round x) (round y).
Proof.
  destruct x, y; simpl; try done. intros H. by rewrite (rint_comp _ _ H).
Qed.

Lemma leb_comp (x x' y y' : num) :
  num_eq x x' -> num_eq y y' -> leb x y = leb x' y'.
Proof.
  destruct x, x', y, y'; simpl; try done. intros H1 H2.
  apply eq_true_iff_eq. rewrite !Qle_bool_iff. by rewrite H1, H2.
Qed.

Lemma leb_total (x y : num) :
  isna x = false -> isna y = false -> leb x y = false -> leb y x = true.
Proof.
  destruct x as [a| | |], y as [b| | |]; simpl; try done.
  intros _ _ H. apply Qle_bool_iff.
  apply Qlt_le_weak, Qnot_le_lt. intros Hle. apply Qle_bool_iff in Hle. congruence.
Qed.

Lemma leb_trans (x y z : num) :
  leb x y = true -> leb y z = true -> leb x z = true.
Proof.
  destruct x as [a| | |], y as [b| | |], z as [c| | |]; simpl; try done.
  rewrite !Qle_bool_iff. apply Qle_trans.
Qed.

(** ** Sorting *)

Lemma insert_asc_perm (x : string * num) (l : list (string * num)) :
  Permutation (insert_asc x l) (x :: l).
Proof.
  induction l as [|y l IH]; simpl; [done|].
  destruct (leb (snd x) (snd y)); [done|].
  rewrite IH. apply perm_swap.
Qed.

Lemma argsort_asc_perm (l : list (string * num)) :
  Permutation (argsort_asc l) l.
Proof.
  induction l as [|x l IH]; simpl; [done|].
  rewrite insert_asc_perm. by constructor.
Qed.

Lemma filter_split_perm {A : Type} (p : A -> bool) (l : list A) :
  Permutation (List.filter (fun x => negb (p x)) l ++ List.filter p l) l.
Proof.
  induction l as [|x l IH]; simpl; [done|].
  destruct (p x); simpl.
  - rewrite <- Permutation_middle. by constructor.
  - by constructor.
Qed.

Lemma sort_values_desc_perm (l : list (string * num)) :
  Permutation (sort_values_desc l) l.
Proof.
  unfold sort_values_desc.
  rewrite <- (filter_split_perm (fun e => isna (snd e)) l) at 3.
  apply Permutation_app_tail.
  rewrite <- Permutation_rev, argsort_asc_perm. symmetry. apply Permutation_rev.
Qed.

Lemma insert_asc_sorted (x : string * num) (l : list (string * num)) :
  isna (snd x) = false -> no_nan l ->
  StronglySorted asc l -> StronglySorted asc (insert_asc x l).
Proof.
  intros Hx Hl Hs. induction Hs as [|y l Hs IH Hall]; simpl.
  - repeat constructor.
  - apply Forall_cons_1 in Hl as [Hy Hl].
    destruct (leb (snd x) (snd y)) eqn:E.
    + constructor; [by constructor|]. constructor; [exact E|].
      eapply Forall_impl; [exact Hall|]. intros z Hz.
      unfold asc in *. by eapply leb_trans.
    + constructor; [by apply IH|].
      apply List.Forall_forall. intros z Hz.
      apply (Permutation_in _ (insert_asc_perm x l)) in Hz as [<-|Hz].
      * by apply leb_total.
      * rewrite List.Forall_forall in Hall. by apply Hall.
Qed.

Lemma argsort_asc_sorted (l : list (string * num)) :
  no_nan l -> StronglySorted asc (argsort_asc l).
Proof.
  induction l as [|x l IH]; intros Hl; simpl; [constructor|].
  apply Forall_cons_1 in Hl as [Hx Hl].
  apply insert_asc_sorted; [done| |by apply IH].
  unfold no_nan. by rewrite argsort_asc_perm.
Qed.

Lemma StronglySorted_rev {A : Type} (R : A -> A -> Prop) (l : list A) :
  StronglySorted R l -> StronglySorted (fun a b => R b a) (rev l).
Proof.
  induction 1 as [|x l Hs IH Hall]; simpl; [constructor|].
  apply StronglySorted_app_2; [|exact IH|repeat constructor].
  intros a b Ha Hb. apply list_elem_of_singleton in Hb as ->.
  apply list_elem_of_In, in_rev in Ha.
  rewrite List.Forall_forall in Hall. by apply Hall.
Qed.

Lemma StronglySorted_map {A B : Type} (f : A -> B) (R : B -> B -> Prop) (l : list A) :
  StronglySorted (fun a b => R (f a) (f b)) l -> StronglySorted R (map f l).
Proof.
  induction 1 as [|x l Hs IH Hall]; simpl; constructor; [exact IH|].
  apply List.Forall_forall. intros y Hy. apply in_map_iff in Hy as (z & <- & Hz).
  rewrite List.Forall_forall in Hall. by apply Hall.
Qed.

Lemma filter_all {A : Type} (p : A -> bool) (l : list A) :
  Forall (fun x => p x = true) (List.filter p l).
Proof.
  apply List.Forall_forall. intros x Hx. by apply filter_In in Hx as [_ Hx].
Qed.

Lemma StronglySorted_weaken {A : Type} (R R' : A -> A -> Prop) (l : list A) :
  (forall a b, R a b -> R' a b) -> StronglySorted R l -> StronglySorted R' l.
Proof.
  intros HR. induction 1 as [|x l Hs IH Hall]; constructor; [exact IH|].
  eapply Forall_impl; [exact Hall|]. intros y. apply HR.
Qed.

(** Line 61 leaves the column in descending order, NaN cells last. *)
Lemma sort_values_desc_sorted (l : list (string * num)) :
  descending (map snd (sort_values_desc l)).
Proof.
  unfold descending, sort_values_desc. apply StronglySorted_map.
  apply StronglySorted_app_2.
  - intros a b _ Hb. right.
    apply list_elem_of_In, filter_In in Hb as [_ Hb]. exact Hb.
  - apply StronglySorted_weaken with (R := fun a b => asc b a).
    { intros a b H. by left. }
    apply StronglySorted_rev, argsort_asc_sorted.
    unfold no_nan. rewrite <- Permutation_rev.
    eapply Forall_impl; [apply filter_all|].
    intros e He. by apply negb_true_iff in He.
  - apply StronglySorted_weaken with (R := fun a b => isna (snd b) = true).
    { intros a b H. by right. }
    induction (filter_all (fun e => isna (snd e)) l) as [|x l' Hx Hall IH];
      constructor; [exact IH|exact Hall].
Qed.

(** ** The shares *)

Lemma fold_add_fin (qs : list Q) (a : Q) :
  exists T,
    fold_left add (List.filter (fun v => negb (isna v)) (map fin qs)) (Fin a) = Fin T
    /\ T == a + Qsum qs.
Proof.
  revert a. induction qs as [|q qs IH]; intros a; simpl.
  - exists a. split; [done|ring].
  - destruct (IH (Qred (a + Qred q))) as (T & HT & E).
    exists T. split; [exact HT|]. rewrite E, !Qred_correct. ring.
Qed.

(** Line 60's divisor is the total over the selected rows. *)
Lemma series_sum_groupby (rows : Table) :
  exists T, series_sum (groupby_sum rows) = Fin T /\ T == total rows.
Proof.
  unfold series_sum, groupby_sum. cbn [entries]. rewrite map_map. cbn [snd].
  destruct (fold_add_fin (map snd (groups_from [] rows)) 0) as (T & HT & E).
  exists T. rewrite map_map in HT. split; [exact HT|].
  rewrite E. destruct (groups_spec rows) as (_ & _ & _ & ->). ring.
Qed.

Lemma unsorted_keys (rows : Table) :
  map fst (unsorted rows) = map fst (groups_from [] rows).
Proof.
  unfold unsorted, groupby_sum. cbn [entries]. by rewrite !map_map.
Qed.

Lemma unsorted_values (rows : Table) (d : string) (p : num) :
  In (d, p) (unsorted rows) ->
  num_eq p (percentage (dept_total d rows) (total rows)).
Proof.
  unfold unsorted. destruct (series_sum_groupby rows) as (T & -> & HT).
  unfold groupby_sum. cbn [entries]. rewrite map_map.
  intros Hin. apply in_map_iff in Hin as ([d' s] & Heq & Hin).
  cbv [fst snd] in Heq. injection Heq as <- <-.
  destruct (groups_spec rows) as (_ & _ & Hv & _).
  assert (H1 : num_eq (fin s) (Fin (dept_total d' rows))).
  { eapply num_eq_trans; [apply fin_num_eq|]. by apply Hv. }
  assert (H2 : num_eq (Fin T) (Fin (total rows))) by exact HT.
  exact (mul_comp _ _ _ _ (div_comp _ _ _ _ H1 H2) (num_eq_refl _)).
Qed.

Lemma proportions_some (t : Table) (identifier : string) :
  matching t identifier <> [] ->
  proportions t identifier =
    Some (sort_values_desc (unsorted (matching t identifier))).
Proof.
  intros Hne. unfold proportions. rewrite filter_mask_matching.
  destruct (matching t identifier); [done|reflexivity].
Qed.

Lemma Forall2_fst_snd {A B : Type} (P : A -> B -> Prop) (l : list (A * B)) :
  (forall a b, In (a, b) l -> P a b) -> Forall2 P (map fst l) (map snd l).
Proof.
  induction l as [|[a b] l IH]; intros H; simpl; constructor.
  - apply H. by left.
  - apply IH. intros a' b' Hin. apply H. by right.
Qed.

(** C1. For an identifier that matches at least one record,
    [calculate_proportion] returns one entry per department present among
    the matching records; the value of a department is the total quantity
    of its matching records divided by the total over all matching records,
    times 100; the entries are in descending order of that value. *)
Theorem calculate_proportion_shares (t : Table) (identifier : string) :
  matching t identifier <> [] ->
  exists depts pcts,
    compute_shares t identifier = Ok (Some (shares_frame depts pcts))
    /\ List.NoDup depts
    /\ (forall d, In d depts <->
                  exists r, In r (matching t identifier) /\ DEPARTMENT_CAT r = d)
    /\ Forall2 (fun d p =>
                  num_eq p (percentage (dept_total d (matching t identifier))
                                      (total (matching t identifier))))
               depts pcts
    /\ descending pcts.
Proof.
  intros Hne. rewrite compute_shares_denotes. unfold shares.
  rewrite (proportions_some _ _ Hne).
  set (rows := matching t identifier).
  set (e := sort_values_desc (unsorted rows)).
  assert (Hp : Permutation e (unsorted rows)) by apply sort_values_desc_perm.
  destruct (groups_spec rows) as (Hnd & Hkeys & _ & _).
  exists (map fst e), (map snd e). repeat split.
  - eapply Permutation_NoDup; [|exact Hnd].
    rewrite <- unsorted_keys. symmetry. by apply Permutation_map.
  - intros Hin. apply Hkeys. rewrite <- unsorted_keys.
    eapply Permutation_in; [|exact Hin]. by apply Permutation_map.
  - intros Hr. apply Hkeys in Hr. rewrite <- unsorted_keys in Hr.
    eapply Permutation_in; [|exact Hr]. symmetry. by apply Permutation_map.
  - apply Forall2_fst_snd. intros d p Hin. apply unsorted_values.
    eapply Permutation_in; [exact Hp|exact Hin].
  - apply sort_values_desc_sorted.
Qed.

Lemma calculate_proportion_shares_witness :
  matching scenario "x" <> [] /\
  exists depts pcts,
    compute_shares scenario "x" = Ok (Some (shares_frame depts pcts))
    /\ List.NoDup depts
    /\ (forall d, In d depts <->
                  exists r, In r (matching scenario "x") /\ DEPARTMENT_CAT r = d)
    /\ Forall2 (fun d p =>
                  num_eq p (percentage (dept_total d (matching scenario "x"))
                                      (total (matching scenario "x"))))
               depts pcts
    /\ descending pcts.
Proof.
  assert (H : matching scenario "x" <> []) by (vm_compute; discriminate).
  split; [exact H|]. exact (calculate_proportion_shares scenario "x" H).
Defined.

(** ** Selection of the records *)

Lemma fresh_call (t : Table) (identifier : string) :
  exists rest m',
    let h := [ODataFrame t; ODataFrame (List.filter (mask (lower identifier)) t)]
               ++ rest in
    calculate_proportion 0%nat identifier (session t) =
      match shares t identifier with
      | None => (Ok None, mkStore h m')
      | Some f => (Ok (Some (length h)), mkStore (h ++ [OFrame f]) m')
      end.
Proof.
  destruct (body_run [ODataFrame t] [] 0%nat t identifier eq_refl) as [rest Hb].
  cbv zeta in Hb. exists rest, [((t, identifier), shares t identifier)].
  unfold calculate_proportion, cache_data, session.
  erewrite run_bind by (by apply run_read_dataframe).
  erewrite run_bind by reflexivity. cbn [memo memo_lookup].
  destruct (shares t identifier) as [f|].
  - erewrite run_bind by exact Hb.
    erewrite run_bind.
    2: { unfold pickle. erewrite run_bind by (apply run_read_frame, lookup_snoc).
         reflexivity. }
    reflexivity.
  - erewrite run_bind by exact Hb. reflexivity.
Qed.

Lemma selected_matching (t : Table) (identifier : string) :
  selected t identifier = Some (matching t identifier).
Proof.
  unfold selected. destruct (fresh_call t identifier) as (rest & m' & Hrun).
  cbv zeta in Hrun. rewrite Hrun, <- filter_mask_matching.
  by destruct (shares t identifier).
Qed.

(** C4. [calculate_proportion] selects exactly the records whose serial
    or whose name equals the identifier when case is ignored; when there is
    none it returns [None]; and identifiers that differ in case only give
    the same result. *)
Theorem calculate_proportion_selection (t : Table) (identifier : string) :
  (exists rows,
      selected t identifier = Some rows
      /\ rows = List.filter (designates identifier) t
      /\ forall r, In r rows <->
           In r t /\ (caseless_eqb (ITEM_SERIAL r) identifier = true \/
                      caseless_eqb (ITEM_NAME r) identifier = true))
  /\ (matching t identifier = [] -> compute_shares t identifier = Ok None)
  /\ (matching t identifier <> [] ->
      exists f, compute_shares t identifier = Ok (Some f))
  /\ (forall identifier',
        caseless_eqb identifier identifier' = true ->
        compute_shares t identifier' = compute_shares t identifier).
Proof.
  repeat split.
  - exists (matching t identifier). split; [apply selected_matching|].
    split; [reflexivity|]. intros r. unfold matching.
    rewrite filter_In. unfold designates. by rewrite orb_true_iff.
  - intros H. rewrite compute_shares_denotes. unfold shares.
    apply proportions_none in H. by rewrite H.
  - intros H. rewrite compute_shares_denotes. unfold shares.
    rewrite (proportions_some _ _ H). by eexists.
  - intros i' H. apply caseless_eqb_eq in H.
    rewrite !compute_shares_denotes. unfold shares.
    by rewrite (proportions_lower t identifier i' H).
Qed.

Lemma calculate_proportion_selection_witness :
  selected widgets "ABC123" = Some widgets
  /\ compute_shares widgets "abc124" = Ok None
  /\ compute_shares widgets "ABC123" =
       Ok (Some (shares_frame ["B"; "A"] [Fin 75; Fin 25]))
  /\ compute_shares widgets "abc123" = compute_shares widgets "ABC123"
  /\ compute_shares widgets "AbC123" = compute_shares widgets "ABC123".
Proof.
  destruct (calculate_proportion_selection widgets "ABC123")
    as ((rows & Hsel & -> & _) & _ & Hsome & Hcase).
  destruct (calculate_proportion_selection widgets "abc124") as (_ & Hnone & _).
  split; [exact Hsel|]. split; [apply Hnone; reflexivity|].
  split.
  - destruct Hsome as [f Hf]; [vm_compute; discriminate|]. reflexivity.
  - split; apply Hcase; reflexivity.
Defined.

(** ** The allocations *)

Lemma dict_set_In {V : Type} (key k : string) (x v : V) (d : list (string * V)) :
  In (k, v) (dict_set key x d) -> (k = key /\ v = x) \/ In (k, v) d.
Proof.
  induction d as [|[k' v'] d IH]; simpl.
  - intros [[= <- <-]|[]]. by left.
  - destruct (String.eqb_spec k' key) as [->|Hne]; simpl.
    + intros [[= <- <-]|H]; [by left|by right; right].
    + intros [H|H]; [by right; left|].
      destruct (IH H) as [?|?]; [by left|by right; right].
Qed.

Lemma dict_get_None {V : Type} (key : string) (d : list (string * V)) :
  ~ In key (map fst d) -> dict_get key d = None.
Proof.
  induction d as [|[k v] d IH]; simpl; [done|]. intros H.
  destruct (String.eqb_spec k key) as [->|Hne]; [tauto|]. apply IH. tauto.
Qed.

Lemma dict_set_keys {V : Type} (key k : string) (x : V) (d : list (string * V)) :
  In k (map fst (dict_set key x d)) <-> k = key \/ In k (map fst d).
Proof.
  induction d as [|[k' v'] d IH]; simpl.
  - intuition congruence.
  - destruct (String.eqb_spec k' key) as [->|Hne]; simpl.
    + intuition congruence.
    + rewrite IH. intuition congruence.
Qed.

Lemma allocations_In (t : Table) (items : list (string * Q)) :
  forall (acc : list (string * Frame)) (item : string) (f : Frame),
    In (item, f) (allocations t items acc) ->
    In (item, f) acc \/
    exists quantity e,
      In (item, quantity) items
      /\ proportions t item = Some e
      /\ f = allocation_frame (map fst e) (map snd e)
               (map (allocated quantity) (map snd e)).
Proof.
  induction items as [|[i q] items IH]; intros acc item f; simpl; [by left|].
  destruct (proportions t i) as [e|] eqn:He; intros H; apply IH in H.
  - destruct H as [H|(q' & e' & Hin & Hp & ->)].
    + apply dict_set_In in H as [[-> ->]|H]; [|by left].
      right. exists q, e. by repeat split; [left|..].
    + right. exists q', e'. by repeat split; [right|..].
  - destruct H as [H|(q' & e' & Hin & Hp & ->)]; [by left|].
    right. exists q', e'. by repeat split; [right|..].
Qed.

Lemma allocations_keys (t : Table) (items : list (string * Q)) :
  forall (acc : list (string * Frame)) (k : string),
    In k (map fst (allocations t items acc)) <->
    In k (map fst acc) \/ (In k (map fst items) /\ proportions t k <> None).
Proof.
  induction items as [|[i q] items IH]; intros acc k; simpl; [tauto|].
  destruct (proportions t i) as [e|] eqn:He; rewrite IH.
  - rewrite dict_set_keys. split.
    + intros [[->|H]|[H1 H2]]; [right|by left|by right; split; [right|]].
      split; [by left|by rewrite He].
    + intros [H|[[->|H1] H2]]; [by left; right|by left; left|by right].
  - split.
    + intros [H|[H1 H2]]; [by left|by right; split; [right|]].
    + intros [H|[[->|H1] H2]]; [by left|by rewrite He in H2|by right].
Qed.

(** What [allocate_quantity] returns: for every key, the frame of shares
    of that identifier with the column of allocated quantities. *)
Lemma allocate_entries (t : Table) (requests : list (string * Q)) :
  exists res,
    allocate t requests = Ok res
    /\ (forall k, In k (map fst res) <->
                  In k (map fst requests) /\ matching t k <> [])
    /\ (forall item f, In (item, f) res ->
          exists quantity depts pcts,
            In (item, quantity) requests
            /\ compute_shares t item = Ok (Some (shares_frame depts pcts))
            /\ f = allocation_frame depts pcts (map (allocated quantity) pcts)).
Proof.
  exists (allocations t requests []). split; [apply allocate_denotes|]. split.
  - intros k. rewrite allocations_keys, <- proportions_none. simpl. tauto.
  - intros item f H. apply allocations_In in H as [[]|(q & e & Hin & Hp & ->)].
    exists q, (map fst e), (map snd e). repeat split; [done|].
    rewrite compute_shares_denotes. unfold shares. by rewrite Hp.
Qed.

Lemma allocated_finite (quantity x : Q) :
  allocated quantity (Fin x) = of_Z (rint (quantity * x / 100)).
Proof.
  unfold allocated, div, of_Z.
  change (Qsgn (inject_Z 100) =? 0)%Z with false. cbv iota.
  unfold fin, Num.mul, round, fin, of_Z. do 2 f_equal.
  apply rint_comp. rewrite !Qred_correct. field.
Qed.




(** C3. An identifier without shares gets no key in the result of
    [allocate_quantity]: the keys are the requested identifiers that match
    a record.  With one matching and one non-matching identifier the
    result has exactly one entry, that of the matching identifier. *)
Theorem allocate_quantity_omits (t : Table) (requests : list (string * Q)) :
  exists res,
    allocate t requests = Ok res
    /\ (forall identifier,
          compute_shares t identifier = Ok None ->
          dict_get identifier res = None /\ ~ In identifier (map fst res))
    /\ (forall identifier,
          In identifier (map fst res) <->
          In identifier (map fst requests) /\ matching t identifier <> [])
    /\ (forall i1 q1 i2 q2,
          requests = [(i1, q1); (i2, q2)] \/ requests = [(i2, q2); (i1, q1)] ->
          matching t i1 <> [] -> matching t i2 = [] ->
          exists f, res = [(i1, f)]).
Proof.
  destruct (allocate_entries t requests) as (res & Hres & Hkeys & _).
  exists res. split; [exact Hres|]. split; [|split; [exact Hkeys|]].
  - intros i Hnone.
    assert (Hin : ~ In i (map fst res)).
    { intros Hin. apply Hkeys in Hin as [_ Hne].
      rewrite compute_shares_denotes in Hnone. unfold shares in Hnone.
      rewrite (proportions_some _ _ Hne) in Hnone. discriminate. }
    split; [by apply dict_get_None|exact Hin].
  - intros i1 q1 i2 q2 Hreq H1 H2.
    rewrite allocate_denotes in Hres. injection Hres as <-.
    apply proportions_none in H2.
    destruct (proportions t i1) as [e|] eqn:He;
      [|by apply proportions_none in He].
    destruct Hreq as [-> | ->]; simpl; rewrite He, H2; by eexists.
Qed.

Lemma allocate_quantity_omits_witness :
  exists res,
    allocate scenario [("X", 50); ("Z", 20)] = Ok res
    /\ compute_shares scenario "Z" = Ok None
    /\ (dict_get "Z" res = None /\ ~ In "Z" (map fst res))
    /\ (In "X" (map fst res) <->
        In "X" (map fst [("X", 50); ("Z", 20)]) /\ matching scenario "X" <> [])
    /\ exists f, res = [("X", f)].
Proof.
  destruct (allocate_quantity_omits scenario [("X", 50); ("Z", 20)])
    as (res & Hres & Hnone & Hkeys & Hone).
  exists res. split; [exact Hres|]. split; [reflexivity|].
  split; [apply Hnone; reflexivity|]. split; [apply Hkeys|].
  apply (Hone "X" 50 "Z" 20); [by left|vm_compute; discriminate|reflexivity].
Defined.

(** ** Rounding *)




(** ** Sum of the percentages *)

Lemma Qsum_cons (x : Q) (l : list Q) : Qsum (x :: l) = x + Qsum l.
Proof. reflexivity. Qed.

Lemma Qsum_perm (l l' : list Q) : Permutation l l' -> Qsum l == Qsum l'.
Proof.
  induction 1 as [|x l l' _ IH|x y l|l l' l'' _ IH1 _ IH2]; simpl.
  - reflexivity.
  - by rewrite IH.
  - ring.
  - by rewrite IH1.
Qed.

Lemma column_sum_finite (l : list num) :
  Forall (fun x => is_finite x = true) l ->
  exists s, column_sum l = Fin s /\ s == Qsum (map value_of l).
Proof.
  induction 1 as [|x l Hx _ (s & Hs & E)]; simpl.
  - by exists 0.
  - destruct x as [q| | |]; try discriminate. rewrite Hs. simpl.
    eexists. split; [reflexivity|]. rewrite Qred_correct. by rewrite E.
Qed.

Lemma percentage_finite (gs tot : Q) :
  ~ tot == 0 ->
  exists x, Num.mul (div (fin gs) (Fin tot)) (of_Z 100) = Fin x
            /\ x == gs / tot * 100.
Proof.
  intros Hne. unfold div, fin.
  destruct (Qsgn tot =? 0)%Z eqn:E; [by apply Qsgn_zero in E|].
  unfold fin, Num.mul, of_Z, fin. eexists. split; [reflexivity|].
  rewrite !Qred_correct. reflexivity.
Qed.

Lemma percentage_zero (gs tot : Q) :
  tot == 0 -> gs == 0 ->
  Num.mul (div (fin gs) (Fin tot)) (of_Z 100) = NaN.
Proof.
  intros Ht Hg. unfold div, fin.
  rewrite (proj2 (Qsgn_zero tot) Ht).
  assert (E : Qred gs == 0) by (by rewrite Qred_correct).
  by rewrite (proj2 (Qsgn_zero _) E).
Qed.

Lemma unsorted_groups (rows : Table) :
  exists T,
    T == total rows
    /\ unsorted rows =
         map (fun g => (fst g, Num.mul (div (fin (snd g)) (Fin T)) (of_Z 100)))
             (groups_from [] rows).
Proof.
  destruct (series_sum_groupby rows) as (T & HT & E). exists T.
  split; [exact E|]. unfold unsorted. rewrite HT.
  unfold groupby_sum. cbn [entries]. by rewrite map_map.
Qed.

Lemma unsorted_finite (rows : Table) :
  ~ total rows == 0 ->
  Forall (fun x => is_finite x = true) (map snd (unsorted rows))
  /\ Qsum (map value_of (map snd (unsorted rows))) == 100.
Proof.
  intros Hne. destruct (unsorted_groups rows) as (T & HT & ->).
  assert (HT0 : ~ T == 0) by (by rewrite HT).
  rewrite !map_map. cbn [snd]. split.
  - apply List.Forall_forall. intros x Hx.
    apply in_map_iff in Hx as (g & <- & _).
    by destruct (percentage_finite (snd g) T HT0) as (x & -> & _).
  - assert (Hall : Qsum (map (fun g => value_of
                     (Num.mul (div (fin (snd g)) (Fin T)) (of_Z 100)))
                     (groups_from [] rows))
                   == Qsum (map snd (groups_from [] rows)) / T * 100).
    { induction (groups_from [] rows) as [|g l IH].
      - simpl. field; exact HT0.
      - rewrite !List.map_cons, !Qsum_cons, IH.
        destruct (percentage_finite (snd g) T HT0) as (x & -> & Hx).
        cbn [value_of]. rewrite Hx. field; exact HT0. }
    destruct (groups_spec rows) as (_ & _ & _ & Hsum). cbv zeta in Hsum.
    rewrite Hall, Hsum, <- HT. field; exact HT0.
Qed.

Lemma total_nonempty (rows : Table) : ~ total rows == 0 -> rows <> [].
Proof. intros H ->. by apply H. Qed.

(** C5, amended.  For an identifier whose matching records have a total
    quantity other than zero, the percentages returned by
    [calculate_proportion] sum to exactly 100 (and so within 0.01 of it). *)
Theorem calculate_proportion_sum (t : Table) (identifier : string) :
  ~ total (matching t identifier) == 0 ->
  exists depts pcts,
    compute_shares t identifier = Ok (Some (shares_frame depts pcts))
    /\ (exists s, column_sum pcts = Fin s /\ s == 100)
    /\ sums_to_100 pcts.
Proof.
  intros Hne. rewrite compute_shares_denotes. unfold shares.
  rewrite (proportions_some _ _ (total_nonempty _ Hne)).
  set (rows := matching t identifier) in *.
  exists (map fst (sort_values_desc (unsorted rows))),
         (map snd (sort_values_desc (unsorted rows))).
  split; [reflexivity|].
  destruct (unsorted_finite rows Hne) as [Hfin Hsum].
  assert (Hp : Permutation (map snd (sort_values_desc (unsorted rows)))
                           (map snd (unsorted rows))).
  { apply Permutation_map, sort_values_desc_perm. }
  destruct (column_sum_finite (map snd (sort_values_desc (unsorted rows))))
    as (s & Hs & E).
  { by rewrite Hp. }
  assert (H100 : s == 100).
  { rewrite E, <- Hsum. apply Qsum_perm. by apply Permutation_map. }
  split; exists s; (split; [exact Hs|]); [exact H100|].
  rewrite H100. discriminate.
Qed.

Lemma calculate_proportion_sum_witness :
  ~ total (matching scenario "X") == 0 /\
  exists depts pcts,
    compute_shares scenario "X" = Ok (Some (shares_frame depts pcts))
    /\ (exists s, column_sum pcts = Fin s /\ s == 100)
    /\ sums_to_100 pcts.
Proof.
  assert (H : ~ total (matching scenario "X") == 0) by (vm_compute; discriminate).
  split; [exact H|]. exact (calculate_proportion_sum scenario "X" H).
Defined.

(** C5 as stated fails: the table [zeros] is not empty and the identifier
    X matches both of its records, yet the percentages are NaN and do not
    sum to 100, within 0.01 or exactly. *)
Lemma calculate_proportion_sum_counterexample :
  zeros <> []
  /\ matching zeros "X" = zeros
  /\ compute_shares zeros "X" = Ok (Some (shares_frame ["A"; "B"] [NaN; NaN]))
  /\ column_sum [NaN; NaN] = NaN
  /\ ~ sums_to_100 [NaN; NaN].
Proof.
  repeat split; try reflexivity; try discriminate.
  intros (s & Hs & _). discriminate Hs.
Qed.

(** ** A zero total *)

Lemma Forall_filter_keep {A : Type} (P : A -> Prop) (p : A -> bool) (l : list A) :
  Forall P l -> Forall P (List.filter p l).
Proof.
  rewrite !List.Forall_forall. intros H x Hx. apply H.
  by apply filter_In in Hx as [Hx _].
Qed.

Lemma total_zero (rows : Table) :
  Forall (fun r => QUANTITY r == 0) rows -> total rows == 0.
Proof.
  unfold total. induction 1 as [|r rows Hr _ IH]; simpl; [reflexivity|].
  rewrite Hr, IH. reflexivity.
Qed.

Lemma total_nonneg (rows : Table) :
  Forall (fun r => 0 <= QUANTITY r) rows -> 0 <= total rows.
Proof.
  unfold total. induction 1 as [|r rows Hr _ IH]; simpl; [discriminate|].
  change 0 with (0 + 0). by apply Qplus_le_compat.
Qed.

Lemma groups_nonempty (rows : Table) :
  rows <> [] -> groups_from [] rows <> [].
Proof.
  destruct rows as [|r rows]; [done|]. intros _ H.
  assert (Hin : In (DEPARTMENT_CAT r) (map fst (groups_from [] (r :: rows)))).
  { apply groups_from_keys. right. exists r. split; [by left|reflexivity]. }
  by rewrite H in Hin.
Qed.

Lemma unsorted_zero (rows : Table) :
  Forall (fun r => QUANTITY r == 0) rows ->
  Forall (fun p => p = NaN) (map snd (unsorted rows)).
Proof.
  intros Hz. destruct (unsorted_groups rows) as (T & HT & ->).
  rewrite map_map. cbn [snd]. apply List.Forall_forall. intros p Hp.
  apply in_map_iff in Hp as ([d s] & <- & Hin).
  destruct (groups_spec rows) as (_ & _ & Hv & _).
  apply percentage_zero.
  - rewrite HT. by apply total_zero.
  - cbn [snd]. rewrite (Hv d s Hin). unfold dept_total.
    by apply total_zero, Forall_filter_keep.
Qed.

(** C9.  The division of line 60 has no guard.  When the total quantity
    of the matching records is positive every percentage is a finite
    number; when matching records exist and all have quantity 0, the
    divisor is zero and every percentage is NaN. *)
Theorem calculate_proportion_zero_total :
  (forall (t : Table) (identifier : string),
     0 < total (matching t identifier) ->
     exists depts pcts,
       compute_shares t identifier = Ok (Some (shares_frame depts pcts))
       /\ Forall (fun p => is_finite p = true) pcts)
  /\ (forall (t : Table) (identifier : string),
        matching t identifier <> [] ->
        Forall (fun r => QUANTITY r == 0) (matching t identifier) ->
        exists depts pcts T,
          compute_shares t identifier = Ok (Some (shares_frame depts pcts))
          /\ series_sum (groupby_sum (matching t identifier)) = Fin T
          /\ T == 0
          /\ pcts <> []
          /\ Forall (fun p => p = NaN) pcts).
Proof.
  split; intros t identifier.
  - intros Hpos.
    assert (Hne : ~ total (matching t identifier) == 0).
    { intros E. rewrite E in Hpos. discriminate. }
    rewrite compute_shares_denotes. unfold shares.
    rewrite (proportions_some _ _ (total_nonempty _ Hne)).
    do 2 eexists. split; [reflexivity|].
    destruct (unsorted_finite _ Hne) as [Hfin _].
    eapply Permutation_Forall; [|exact Hfin].
    symmetry. apply Permutation_map, sort_values_desc_perm.
  - intros Hne Hz. rewrite compute_shares_denotes. unfold shares.
    rewrite (proportions_some _ _ Hne).
    set (rows := matching t identifier) in *.
    destruct (series_sum_groupby rows) as (T & HT & E).
    exists (map fst (sort_values_desc (unsorted rows))),
           (map snd (sort_values_desc (unsorted rows))), T.
    assert (Hp : Permutation (map snd (unsorted rows))
                             (map snd (sort_values_desc (unsorted rows)))).
    { symmetry. apply Permutation_map, sort_values_desc_perm. }
    repeat split.
    + exact HT.
    + rewrite E. by apply total_zero.
    + intros Hnil. rewrite Hnil in Hp. apply Permutation_nil_r in Hp.
      destruct (unsorted_groups rows) as (T' & _ & Hu). rewrite Hu, map_map in Hp.
      apply map_eq_nil in Hp. by apply groups_nonempty in Hp.
    + eapply Permutation_Forall; [exact Hp|]. by apply unsorted_zero.
Qed.

Lemma calculate_proportion_zero_total_witness :
  (exists depts pcts,
      compute_shares scenario "X" = Ok (Some (shares_frame depts pcts))
      /\ Forall (fun p => is_finite p = true) pcts)
  /\ (exists depts pcts T,
        compute_shares zeros "X" = Ok (Some (shares_frame depts pcts))
        /\ series_sum (groupby_sum (matching zeros "X")) = Fin T
        /\ T == 0
        /\ pcts <> []
        /\ Forall (fun p => p = NaN) pcts).
Proof.
  destruct calculate_proportion_zero_total as [Hpos Hzero]. split.
  - apply Hpos. reflexivity.
  - apply Hzero; [vm_compute; discriminate|].
    repeat constructor.
Defined.

(** ** Signs *)

Lemma nonneg_of_Z (n : Z) : (0 <= n)%Z -> nonneg (of_Z n).
Proof.
  intros H. unfold nonneg, of_Z, leb. apply Qle_bool_iff.
  change 0 with (inject_Z 0). by rewrite <- Zle_Qle.
Qed.

Lemma rint_nonneg (v : Q) : 0 <= v -> (0 <= rint v)%Z.
Proof.
  intros H. assert (Hf : (0 <= Qfloor v)%Z).
  { change 0%Z with (Qfloor 0). by apply Qfloor_resp_le. }
  unfold rint. destruct (Qcompare _ _); [destruct (Z.even _)|..]; lia.
Qed.

Lemma percentage_nonneg (gs tot : Q) :
  0 <= gs -> 0 < tot -> 0 <= gs / tot * 100.
Proof.
  intros Hg Ht. apply Qmult_le_0_compat; [|discriminate].
  apply Qmult_le_0_compat; [exact Hg|].
  by apply Qinv_le_0_compat, Qlt_le_weak.
Qed.

Lemma unsorted_nonneg (rows : Table) :
  Forall (fun r => 0 <= QUANTITY r) rows ->
  0 < total rows ->
  Forall (fun p => exists x, p = Fin x /\ 0 <= x) (map snd (unsorted rows)).
Proof.
  intros Hq Hpos. destruct (unsorted_groups rows) as (T & HT & ->).
  assert (HT0 : ~ T == 0).
  { rewrite HT. intros E. rewrite E in Hpos. discriminate. }
  rewrite map_map. cbn [snd]. apply List.Forall_forall. intros p Hp.
  apply in_map_iff in Hp as ([d s] & <- & Hin).
  destruct (groups_spec rows) as (_ & _ & Hv & _).
  destruct (percentage_finite s T HT0) as (x & Hx & E).
  exists x. split; [exact Hx|]. rewrite E, (Hv d s Hin), HT.
  apply percentage_nonneg; [|exact Hpos].
  unfold dept_total. by apply total_nonneg, Forall_filter_keep.
Qed.

(** C10, amended.  With non-negative quantities in the table and in the
    request, every percentage and every allocated quantity that
    [allocate_quantity] produces for an identifier whose matching records
    have a positive total is non-negative; for an identifier whose
    matching records have total 0 they are all NaN. *)
Theorem allocate_quantity_nonneg (t : Table) (requests : list (string * Q)) :
  Forall (fun r => 0 <= QUANTITY r) t ->
  Forall (fun iq => 0 <= snd iq) requests ->
  exists res,
    allocate t requests = Ok res
    /\ forall item f, In (item, f) res ->
         exists depts pcts allocs,
           compute_shares t item = Ok (Some (shares_frame depts pcts))
           /\ f = allocation_frame depts pcts allocs
           /\ (0 < total (matching t item) ->
               Forall nonneg pcts /\ Forall nonneg allocs)
           /\ (total (matching t item) == 0 ->
               Forall (fun p => p = NaN) pcts /\ Forall (fun a => a = NaN) allocs).
Proof.
  intros Ht Hreq.
  destruct (allocate_entries t requests) as (res & Hres & Hkeys & Hent).
  exists res. split; [exact Hres|]. intros item f Hin.
  assert (Hne : matching t item <> []).
  { apply Hkeys. change item with (fst (item, f)). by apply in_map. }
  destruct (Hent item f Hin) as (q & depts & pcts & Hq & Hsh & ->).
  exists depts, pcts, (map (allocated q) pcts).
  split; [exact Hsh|]. split; [reflexivity|].
  assert (Hq0 : 0 <= q).
  { rewrite List.Forall_forall in Hreq. apply (Hreq _ Hq). }
  assert (Hrows : Forall (fun r => 0 <= QUANTITY r) (matching t item)).
  { by apply Forall_filter_keep. }
  rewrite compute_shares_denotes in Hsh. unfold shares in Hsh.
  rewrite (proportions_some _ _ Hne) in Hsh. injection Hsh as <- <-.
  set (rows := matching t item) in *.
  assert (Hp : Permutation (map snd (unsorted rows))
                           (map snd (sort_values_desc (unsorted rows)))).
  { symmetry. apply Permutation_map, sort_values_desc_perm. }
  split.
  - intros Hpos.
    assert (Hx : Forall (fun p => exists x, p = Fin x /\ 0 <= x)
                   (map snd (sort_values_desc (unsorted rows)))).
    { eapply Permutation_Forall; [exact Hp|]. by apply unsorted_nonneg. }
    split.
    + eapply Forall_impl; [exact Hx|]. intros p (x & -> & H0).
      unfold nonneg, leb. by apply Qle_bool_iff.
    + rewrite Forall_map. eapply Forall_impl; [exact Hx|].
      intros p (x & -> & H0). rewrite allocated_finite.
      apply nonneg_of_Z, rint_nonneg.
      apply Qmult_le_0_compat; [|discriminate].
      by apply Qmult_le_0_compat.
  - intros Hzero.
    assert (Hz : Forall (fun r => QUANTITY r == 0) rows).
    { clear -Hrows Hzero. unfold total in Hzero.
      induction Hrows as [|r rows Hr Hrows IH]; [constructor|].
      simpl in Hzero.
      assert (H0 : 0 <= Qsum (map QUANTITY rows)) by (by apply total_nonneg).
      assert (Hr0 : QUANTITY r == 0).
      { apply Qle_antisym; [|exact Hr]. rewrite <- Hzero.
        rewrite <- (Qplus_0_r (QUANTITY r)) at 1. by apply Qplus_le_r. }
      constructor; [exact Hr0|]. apply IH.
      rewrite Hr0 in Hzero. by rewrite Qplus_0_l in Hzero. }
    assert (Hn : Forall (fun p => p = NaN)
                   (map snd (sort_values_desc (unsorted rows)))).
    { eapply Permutation_Forall; [exact Hp|]. by apply unsorted_zero. }
    split; [exact Hn|].
    rewrite Forall_map. eapply Forall_impl; [exact Hn|]. by intros p ->.
Qed.

Lemma allocate_quantity_nonneg_witness :
  exists depts pcts allocs,
    compute_shares scenario "X" = Ok (Some (shares_frame depts pcts))
    /\ allocation_frame ["B"; "A"] [Fin 70; Fin 30] [Fin 35; Fin 15] =
      allocation_frame depts pcts allocs
    /\ (0 < total (matching scenario "X") ->
        Forall nonneg pcts /\ Forall nonneg allocs)
    /\ (total (matching scenario "X") == 0 ->
        Forall (fun p => p = NaN) pcts /\ Forall (fun a => a = NaN) allocs).
Proof.
  destruct (allocate_quantity_nonneg scenario [("X", 50)])
    as (res & Hres & Hent).
  - repeat constructor; discriminate.
  - repeat constructor; discriminate.
  - injection Hres as <-. apply (Hent "X"). by left.
Defined.

(** C10 as stated fails: every quantity of [zeros] and the requested
    quantity are non-negative, yet the percentages and the allocated
    quantities are NaN, which is not non-negative. *)
Lemma allocate_quantity_nonneg_counterexample :
  Forall (fun r => 0 <= QUANTITY r) zeros
  /\ Forall (fun iq => 0 <= snd iq) [("X", 50)]
  /\ allocate zeros [("X", 50)] =
       Ok [("X", allocation_frame ["A"; "B"] [NaN; NaN] [NaN; NaN])]
  /\ ~ nonneg NaN.
Proof.
  repeat split; try reflexivity; try discriminate.
  - repeat constructor; discriminate.
  - repeat constructor; discriminate.
Qed.

(** ** Purity of [calculate_proportion] *)

(** C7.  From any store whose memo is sound, two calls in a row with the
    same table and identifier return frames with the same content, which
    depends on the table and the identifier only; the calls change no
    object of the store, the table included, and leave the memo sound; the
    two frames are distinct objects, and overwriting the first one does
    not change what the second call returns. *)
Theorem calculate_proportion_pure (s : store) (df : loc) (t : Table)
  (identifier : string) :
  heap s !! df = Some (ODataFrame t) ->
  memo_ok (memo s) ->
  exists r1 s1 r2 s2,
    calculate_proportion df identifier s = (Ok r1, s1)
    /\ calculate_proportion df identifier s1 = (Ok r2, s2)
    /\ deref_frame s1 r1 = Ok (shares t identifier)
    /\ deref_frame s2 r2 = Ok (shares t identifier)
    /\ extends s s1 /\ extends s1 s2
    /\ heap s2 !! df = Some (ODataFrame t)
    /\ memo_ok (memo s2)
    /\ (forall l1 l2, r1 = Some l1 -> r2 = Some l2 -> l1 <> l2)
    /\ (forall l1 f', r1 = Some l1 ->
          exists r2' s2',
            calculate_proportion df identifier
              (mkStore (<[l1 := OFrame f']> (heap s1)) (memo s1)) = (Ok r2', s2')
            /\ deref_frame s2' r2' = Ok (shares t identifier)
            /\ heap s2' !! df = Some (ODataFrame t)).
Proof.
  destruct s as [h m]. cbn [heap memo]. intros Hdf Hm.
  destruct (cached_run h m df t identifier Hdf Hm)
    as (extra & m1 & Hrun1 & Hm1 & _).
  assert (Hdf1 : (h ++ extra) !! df = Some (ODataFrame t))
    by (by apply lookup_app_l_Some).
  destruct (shares t identifier) as [f|] eqn:Hsh.
  - assert (Hdf1' : ((h ++ extra) ++ [OFrame f]) !! df = Some (ODataFrame t))
      by (by apply lookup_app_l_Some).
    destruct (cached_run _ m1 df t identifier Hdf1' Hm1)
      as (extra2 & m2 & Hrun2 & Hm2 & _).
    rewrite Hsh in Hrun2.
    do 4 eexists. split; [exact Hrun1|]. split; [exact Hrun2|].
    cbn [deref_frame heap]. rewrite !lookup_snoc.
    repeat split.
    + exists (extra ++ [OFrame f]). cbn [heap]. by rewrite app_assoc.
    + exists (extra2 ++ [OFrame f]). cbn [heap]. by rewrite app_assoc.
    + by apply lookup_app_l_Some, lookup_app_l_Some.
    + exact Hm2.
    + intros l1 l2 [= <-] [= <-]. rewrite !length_app. simpl. lia.
    + intros l1 f' [= <-]. cbn [memo]. rewrite insert_snoc.
      assert (Hdf3 : ((h ++ extra) ++ [OFrame f']) !! df = Some (ODataFrame t))
        by (by apply lookup_app_l_Some).
      destruct (cached_run _ m1 df t identifier Hdf3 Hm1)
        as (extra3 & m3 & Hrun3 & _ & _).
      rewrite Hsh in Hrun3. do 2 eexists. split; [exact Hrun3|].
      cbn [deref_frame heap]. rewrite lookup_snoc. split; [reflexivity|].
      by apply lookup_app_l_Some, lookup_app_l_Some.
  - destruct (cached_run _ m1 df t identifier Hdf1 Hm1)
      as (extra2 & m2 & Hrun2 & Hm2 & _).
    rewrite Hsh in Hrun2.
    do 4 eexists. split; [exact Hrun1|]. split; [exact Hrun2|].
    repeat split.
    + by exists extra.
    + by exists extra2.
    + by apply lookup_app_l_Some.
    + exact Hm2.
    + intros l1 l2 [=].
    + intros l1 f' [=].
Qed.

Lemma calculate_proportion_pure_witness :
  exists r1 s1 r2 s2,
    calculate_proportion 0%nat "X" (session scenario) = (Ok r1, s1)
    /\ calculate_proportion 0%nat "X" s1 = (Ok r2, s2)
    /\ deref_frame s1 r1 = Ok (Some (shares_frame ["B"; "A"] [Fin 70; Fin 30]))
    /\ deref_frame s2 r2 = Ok (Some (shares_frame ["B"; "A"] [Fin 70; Fin 30]))
    /\ heap s2 !! 0%nat = Some (ODataFrame scenario).
Proof.
  destruct (calculate_proportion_pure (session scenario) 0%nat scenario "X"
              eq_refl memo_ok_nil)
    as (r1 & s1 & r2 & s2 & H1 & H2 & H3 & H4 & _ & _ & H5 & _).
  exists r1, s1, r2, s2. by repeat split.
Defined.

(** ** The loader *)








(** ** Samples *)

Example lower_sample : lower "AbC123 Flour-X" = "abc123 flour-x".
Proof. reflexivity. Qed.

Example rint_samples :
  map rint [15 # 2; 5 # 2; 3 # 2; 1 # 2; - (1 # 2); - (3 # 2); 149 # 100; 151 # 100]
  = [8; 2; 2; 0; 0; -2; 1; 2]%Z.
Proof. reflexivity. Qed.

(** Groups come in key order, whatever the order of the rows. *)
Example groupby_sum_sample :
  entries (groupby_sum [sample "X" "Flour" "pastry" 2; sample "X" "Flour" "bakery" 3;
                        sample "X" "Flour" "pastry" 5])
  = [("bakery", Fin 3); ("pastry", Fin 7)].
Proof. reflexivity. Qed.

(** Descending order: infinities at their place, NaN last, equal values
    in the order of the index. *)
Example sort_values_desc_sample :
  sort_values_desc [("a", NaN); ("b", Fin 1); ("c", PInf); ("d", Fin 1);
                    ("e", NInf); ("f", Fin 2)]
  = [("c", PInf); ("f", Fin 2); ("b", Fin 1); ("d", Fin 1); ("e", NInf); ("a", NaN)].
Proof. reflexivity. Qed.

(** A key that is set again keeps its place. *)
Example dict_set_sample :
  dict_set "X" 3%nat (dict_set "Y" 2%nat (dict_set "X" 1%nat [])) = [("X", 3%nat); ("Y", 2%nat)].
Proof. reflexivity. Qed.

(** Quantities that cancel: the total is zero and the shares are infinite. *)
Example compute_shares_cancelling :
  compute_shares [sample "X" "Flour" "A" 5; sample "X" "Flour" "B" (-5);
                  sample "X" "Flour" "C" 0] "X"
  = Ok (Some (shares_frame ["A"; "B"; "C"] [PInf; NInf; NaN])).
Proof. reflexivity. Qed.

(** Shares that are no whole numbers: thirds. *)
Example allocate_thirds :
  allocate [sample "X" "Flour" "A" 1; sample "X" "Flour" "B" 2] [("x", 10)]
  = Ok [("x", allocation_frame ["B"; "A"] [Fin (200 # 3); Fin (100 # 3)]
                [Fin 7; Fin 3])].
Proof. reflexivity. Qed.

(** The second of two requests for different items reuses nothing of the
    first; an identifier given by name works as one given by serial. *)
Example allocate_two_items :
  allocate (scenario ++ [sample "Y" "Sugar" "C" 4]) [("sugar", 9); ("X", 10)]
  = Ok [("sugar", allocation_frame ["C"] [Fin 100] [Fin 9]);
        ("X", allocation_frame ["B"; "A"] [Fin 70; Fin 30] [Fin 7; Fin 3])].
Proof. reflexivity. Qed.

(** * Further properties *)

(** ** Order of the result *)

Lemma dict_set_fresh {V : Type} (key : string) (v : V) (d : list (string * V)) :
  ~ In key (map fst d) -> dict_set key v d = d ++ [(key, v)].
Proof.
  induction d as [|[k v'] d IH]; simpl; [done|]. intros H.
  destruct (String.eqb_spec k key) as [->|Hne]; [tauto|].
  rewrite IH; [done|tauto].
Qed.

Lemma has_match_spec (t : Table) (identifier : string) :
  has_match t identifier = true <-> matching t identifier <> [].
Proof. unfold has_match. by destruct (matching t identifier). Qed.

Lemma has_match_proportions (t : Table) (identifier : string) :
  has_match t identifier = false <-> proportions t identifier = None.
Proof.
  rewrite proportions_none. unfold has_match.
  by destruct (matching t identifier).
Qed.

Lemma allocations_keys_order (t : Table) (items : list (string * Q)) :
  forall acc : list (string * Frame),
    List.NoDup (map fst items) ->
    (forall k, In k (map fst items) -> ~ In k (map fst acc)) ->
    map fst (allocations t items acc) =
      map fst acc ++ List.filter (has_match t) (map fst items).
Proof.
  induction items as [|[i q] items IH]; intros acc Hnd Hfresh; simpl.
  - by rewrite app_nil_r.
  - apply List.NoDup_cons_iff in Hnd as [Hi Hnd].
    destruct (proportions t i) as [e|] eqn:He.
    + assert (Hm : has_match t i = true).
      { destruct (has_match t i) eqn:E; [done|].
        apply has_match_proportions in E. congruence. }
      rewrite Hm, IH; [|exact Hnd|].
      * rewrite dict_set_fresh by (apply Hfresh; by left).
        rewrite map_app. simpl. by rewrite <- app_assoc.
      * intros k Hk Hin. apply dict_set_keys in Hin as [->|Hin]; [done|].
        apply (Hfresh k); [by right|done].
    + apply has_match_proportions in He. rewrite He. apply IH; [exact Hnd|].
      intros k Hk. apply Hfresh. by right.
Qed.

(** X1.  When the keys of the request are distinct, the keys of the
    result of [allocate_quantity] are the requested identifiers that match
    a record, as they were written and in the order of the request. *)
Theorem allocate_quantity_order (t : Table) (requests : list (string * Q)) :
  List.NoDup (map fst requests) ->
  exists res,
    allocate t requests = Ok res
    /\ map fst res = List.filter (has_match t) (map fst requests)
    /\ List.NoDup (map fst res).
Proof.
  intros Hnd. exists (allocations t requests []).
  split; [apply allocate_denotes|].
  assert (E : map fst (allocations t requests []) =
              List.filter (has_match t) (map fst requests)).
  { rewrite allocations_keys_order; [done|exact Hnd|]. by intros k _ []. }
  split; [exact E|]. rewrite E. by apply List.NoDup_filter.
Qed.

Lemma allocate_quantity_order_witness :
  exists res,
    allocate pantry [("sugar", 2); ("salt", 1); ("F1", 9)] = Ok res
    /\ map fst res = ["sugar"; "F1"]
    /\ List.NoDup (map fst res).
Proof.
  apply (allocate_quantity_order pantry [("sugar", 2); ("salt", 1); ("F1", 9)]).
  repeat constructor; simpl; intuition discriminate.
Defined.

(** ** The page *)

Lemma read_quantities_from (selected : list string) (number_input : string -> Q) :
  forall acc : list (string * Q),
    List.NoDup selected ->
    (forall k, In k selected -> ~ In k (map fst acc)) ->
    fold_left (fun d item => dict_set item (number_input item) d) selected acc =
      acc ++ map (fun i => (i, number_input i)) selected.
Proof.
  induction selected as [|i sel IH]; intros acc Hnd Hfresh; simpl.
  - by rewrite app_nil_r.
  - apply List.NoDup_cons_iff in Hnd as [Hi Hnd].
    rewrite IH; [|exact Hnd|].
    + rewrite dict_set_fresh by (apply Hfresh; by left).
      by rewrite <- app_assoc.
    + intros k Hk Hin. apply dict_set_keys in Hin as [->|Hin]; [done|].
      apply (Hfresh k); [by right|done].
Qed.

Lemma read_quantities_distinct (selected : list string) (number_input : string -> Q) :
  List.NoDup selected ->
  read_quantities selected number_input =
    map (fun i => (i, number_input i)) selected.
Proof.
  intros Hnd. unfold read_quantities.
  rewrite read_quantities_from; [done|exact Hnd|]. by intros k _ [].
Qed.

Lemma deref_dict_nil (s : store) (d : list (string * loc)) (r : list (string * Frame)) :
  deref_dict s d = Ok r -> (d = [] <-> r = []).
Proof.
  destruct d as [|[k l] d]; simpl.
  - by intros [= <-].
  - destruct (heap s !! l) as [[| |f]|]; try done.
    destruct (deref_dict s d); [|done]. by intros [= <-].
Qed.

(** The page in a fresh session. *)
Lemma click_denotes (t : Table) (selected : list string) (number_input : string -> Q) :
  click t selected number_input =
    Ok (let item_quantities :=
          match selected with
          | [] => []
          | _ :: _ => read_quantities selected number_input
          end in
        if match selected with [] => false | _ :: _ => true end
           && any_positive item_quantities
        then match allocations t item_quantities [] with
             | [] => ErrorNoMatch
             | r :: res => Tables (r :: res)
             end
        else WarningInvalid).
Proof.
  unfold click, on_calculate. cbv zeta.
  set (iq := match selected with [] => [] | _ :: _ => _ end).
  destruct (match selected with [] => false | _ :: _ => true end
            && any_positive iq); [|reflexivity].
  unfold allocate_quantity, session.
  destruct (allocate_loop_run t 0%nat iq [ODataFrame t] [] [] []
              eq_refl memo_ok_nil eq_refl) as (d' & extra & m' & Hl & Hd & _).
  erewrite run_bind by exact Hl.
  pose proof (deref_dict_nil _ _ _ Hd) as Hnil.
  destruct d' as [|kl d'].
  - destruct (allocations t iq []); [done|]. by destruct Hnil as [Hnil _]; discriminate Hnil.
  - unfold mret, M_ret. rewrite Hd.
    destruct (allocations t iq []); [|done].
    by destruct Hnil as [_ Hnil]; discriminate Hnil.
Qed.

Lemma any_positive_spec (selected : list string) (number_input : string -> Q) :
  any_positive (map (fun i => (i, number_input i)) selected) = true <->
  exists i, In i selected /\ 0 < number_input i.
Proof.
  unfold any_positive. rewrite map_map, existsb_exists. cbn [snd]. split.
  - intros (q & Hin & Hq). apply in_map_iff in Hin as (i & <- & Hi).
    exists i. split; [done|]. apply Qnot_le_lt. intros Hle.
    apply Qle_bool_iff in Hle. by rewrite Hle in Hq.
  - intros (i & Hi & Hq). exists (number_input i). split.
    + apply in_map_iff. by exists i.
    + destruct (Qle_bool (number_input i) 0) eqn:E; [|done].
      apply Qle_bool_iff in E. by apply Qle_not_lt in E.
Qed.

Lemma click_distinct (t : Table) (selected : list string) (number_input : string -> Q) :
  List.NoDup selected ->
  click t selected number_input =
    Ok (if match selected with [] => false | _ :: _ => true end
           && any_positive (map (fun i => (i, number_input i)) selected)
        then match allocations t (map (fun i => (i, number_input i)) selected) [] with
             | [] => ErrorNoMatch
             | r :: res => Tables (r :: res)
             end
        else WarningInvalid).
Proof.
  intros Hnd. rewrite click_denotes. cbv zeta.
  destruct selected as [|i sel]; [reflexivity|].
  by rewrite (read_quantities_distinct _ _ Hnd).
Qed.

Lemma click_keys (t : Table) (selected : list string) (number_input : string -> Q) :
  List.NoDup selected ->
  map fst (allocations t (map (fun i => (i, number_input i)) selected) []) =
    List.filter (has_match t) selected.
Proof.
  intros Hnd.
  assert (Hkeys : map fst (map (fun i => (i, number_input i)) selected) = selected).
  { rewrite map_map. apply map_id. }
  rewrite allocations_keys_order; rewrite ?Hkeys; [done|exact Hnd|].
  by intros k _ [].
Qed.

Lemma click_tables (t : Table) (selected : list string) (number_input : string -> Q) :
  List.NoDup selected ->
  (exists i, In i selected /\ 0 < number_input i) ->
  (exists i, In i selected /\ matching t i <> []) ->
  exists res,
    click t selected number_input = Ok (Tables res)
    /\ allocate t (map (fun i => (i, number_input i)) selected) = Ok res
    /\ map fst res = List.filter (has_match t) selected.
Proof.
  intros Hnd Hpos (i & Hi & Hm). rewrite (click_distinct _ _ _ Hnd).
  pose proof (click_keys t selected number_input Hnd) as Hord.
  rewrite (proj2 (any_positive_spec _ _) Hpos).
  assert (Hin : In i (List.filter (has_match t) selected)).
  { apply filter_In. split; [done|]. by apply has_match_spec. }
  rewrite <- Hord in Hin.
  eexists. split; [|split; [apply allocate_denotes|exact Hord]].
  destruct selected as [|i0 sel]; [by destruct Hi|]. cbn [andb].
  by destruct (allocations _ _ _) as [|r res].
Qed.

(** X2.  What a press of the button shows, for a selection of distinct
    identifiers: the warning exactly when nothing is selected or no
    quantity is positive; the error exactly when a quantity is positive
    and no selected identifier matches a record; otherwise one table per
    selected identifier that matches, in the order of the selection. *)
Theorem on_calculate_outcome (t : Table) (selected : list string)
  (number_input : string -> Q) :
  List.NoDup selected ->
  (click t selected number_input = Ok WarningInvalid <->
     selected = [] \/ forall i, In i selected -> number_input i <= 0)
  /\ (click t selected number_input = Ok ErrorNoMatch <->
        (exists i, In i selected /\ 0 < number_input i)
        /\ forall i, In i selected -> matching t i = [])
  /\ ((exists i, In i selected /\ 0 < number_input i) ->
      (exists i, In i selected /\ matching t i <> []) ->
      exists res,
        click t selected number_input = Ok (Tables res)
        /\ allocate t (map (fun i => (i, number_input i)) selected) = Ok res
        /\ map fst res = List.filter (has_match t) selected).
Proof.
  intros Hnd.
  enough (H12 :
    (click t selected number_input = Ok WarningInvalid <->
       selected = [] \/ forall i, In i selected -> number_input i <= 0)
    /\ (click t selected number_input = Ok ErrorNoMatch <->
          (exists i, In i selected /\ 0 < number_input i)
          /\ forall i, In i selected -> matching t i = [])).
  { destruct H12 as [H1 H2]. split; [exact H1|]. split; [exact H2|].
    apply (click_tables _ _ _ Hnd). }
  rewrite (click_distinct _ _ _ Hnd).
  set (iq := map (fun i => (i, number_input i)) selected).
  assert (Hkeys : map fst iq = selected).
  { unfold iq. rewrite map_map. apply map_id. }
  assert (Hord : map fst (allocations t iq []) = List.filter (has_match t) selected).
  { rewrite allocations_keys_order; rewrite ?Hkeys; [done|exact Hnd|].
    by intros k _ []. }
  pose proof (any_positive_spec selected number_input) as Hany. fold iq in Hany.
  assert (Hnone : allocations t iq [] = [] <->
                  forall i, In i selected -> matching t i = []).
  { split.
    - intros E i Hi. rewrite E in Hord. simpl in Hord.
      destruct (matching t i) eqn:Hm; [done|].
      assert (Hin : In i (List.filter (has_match t) selected)).
      { apply filter_In. split; [done|]. apply has_match_spec. by rewrite Hm. }
      by rewrite <- Hord in Hin.
    - intros Hall. destruct (allocations t iq []) as [|[k f] l]; [done|].
      simpl in Hord.
      assert (Hin : In k (List.filter (has_match t) selected))
        by (rewrite <- Hord; by left).
      apply filter_In in Hin as [Hk Hm]. apply has_match_spec in Hm.
      by specialize (Hall k Hk). }
  split.
  - destruct selected as [|i0 sel]; simpl andb.
    { split; [by left|done]. }
    destruct (any_positive iq) eqn:E.
    + split.
      * intros H. by destruct (allocations t iq []).
      * intros [H|H]; [done|]. destruct (proj1 Hany eq_refl) as (i & Hi & Hq).
        specialize (H i Hi). by apply Qle_not_lt in H.
    + split; [|done]. intros _. right. intros i Hi.
      apply Qnot_lt_le. intros Hq.
      assert (false = true) by (apply Hany; by exists i).
      discriminate.
  - split.
    + intros H. destruct selected as [|i0 sel]; simpl andb in H; [done|].
      destruct (any_positive iq) eqn:E; [|done].
      split; [by apply (proj1 Hany)|]. apply Hnone.
      by destruct (allocations t iq []).
    + intros [Hpos Hall]. destruct selected as [|i0 sel].
      { by destruct Hpos as (i & [] & _). }
      simpl andb. rewrite (proj2 Hany Hpos).
      by rewrite (proj2 Hnone Hall).
Qed.

Lemma on_calculate_outcome_witness :
  click pantry [] (fun _ => 1) = Ok WarningInvalid
  /\ click pantry ["Flour"] (fun _ => 0) = Ok WarningInvalid
  /\ click pantry ["Salt"; "Pepper"] (fun _ => 3) = Ok ErrorNoMatch
  /\ exists res,
       click pantry ["Sugar"; "Salt"; "Flour"] (fun _ => 3) = Ok (Tables res)
       /\ allocate pantry [("Sugar", 3); ("Salt", 3); ("Flour", 3)] = Ok res
       /\ map fst res = ["Sugar"; "Flour"].
Proof.
  split; [|split; [|split]].
  - apply (on_calculate_outcome pantry [] (fun _ => 1)); [constructor|by left].
  - apply (on_calculate_outcome pantry ["Flour"] (fun _ => 0)).
    + repeat constructor; simpl; intuition discriminate.
    + right. intros i _. discriminate.
  - apply (on_calculate_outcome pantry ["Salt"; "Pepper"] (fun _ => 3)).
    + repeat constructor; simpl; intuition discriminate.
    + split; [exists "Salt"; split; [by left|reflexivity]|].
      intros i [<-|[<-|[]]]; reflexivity.
  - apply (on_calculate_outcome pantry ["Sugar"; "Salt"; "Flour"] (fun _ => 3)).
    + repeat constructor; simpl; intuition discriminate.
    + exists "Sugar". split; [by left|reflexivity].
    + exists "Sugar". split; [by left|vm_compute; discriminate].
Defined.

Lemma unique_In (l : list string) (x : string) : In x (unique l) <-> In x l.
Proof.
  induction l as [|y l IH]; simpl; [done|].
  rewrite filter_In, IH. split.
  - intros [->|[H _]]; [by left|by right].
  - intros [->|H]; [by left|].
    destruct (String.eqb_spec x y) as [->|Hne]; [by left|by right].
Qed.

Lemma unique_NoDup (l : list string) : List.NoDup (unique l).
Proof.
  induction l as [|y l IH]; simpl; constructor.
  - intros H. apply filter_In in H as [_ H]. by rewrite String.eqb_refl in H.
  - by apply List.NoDup_filter.
Qed.

Lemma options_denotes (t : Table) : options t = Ok (unique (map ITEM_NAME t)).
Proof. reflexivity. Qed.

Lemma name_has_match (t : Table) (r : UsageRecord) :
  In r t -> has_match t (ITEM_NAME r) = true.
Proof.
  intros Hr. apply has_match_spec.
  assert (Hin : In r (matching t (ITEM_NAME r))).
  { apply filter_In. split; [exact Hr|]. unfold designates.
    rewrite (proj2 (caseless_eqb_eq (ITEM_NAME r) (ITEM_NAME r)) eq_refl).
    apply orb_true_r. }
  intros E. by rewrite E in Hin.
Qed.

Lemma filter_all_true {A : Type} (p : A -> bool) (l : list A) :
  (forall x, In x l -> p x = true) -> List.filter p l = l.
Proof.
  induction l as [|x l IH]; intros H; simpl; [done|].
  rewrite (H x) by (by left). f_equal. apply IH. intros y Hy. apply H. by right.
Qed.

(** X3.  The options offered at line 115 are the item names of the table,
    each once; and whatever distinct options are selected, as soon as one
    quantity is positive the button shows one table per selected item, in
    the order of the selection: the error of line 134 cannot show. *)
Theorem on_calculate_options (t : Table) (selected : list string)
  (number_input : string -> Q) :
  exists names,
    options t = Ok names
    /\ List.NoDup names
    /\ (forall n, In n names <-> exists r, In r t /\ ITEM_NAME r = n)
    /\ (List.NoDup selected ->
        (forall i, In i selected -> In i names) ->
        (exists i, In i selected /\ 0 < number_input i) ->
        exists res,
          click t selected number_input = Ok (Tables res)
          /\ map fst res = selected).
Proof.
  exists (unique (map ITEM_NAME t)). split; [apply options_denotes|].
  split; [apply unique_NoDup|]. split.
  - intros n. rewrite unique_In, in_map_iff. split; intros (r & H1 & H2); eauto.
  - intros Hnd Hsub Hpos.
    assert (Hall : forall i, In i selected -> has_match t i = true).
    { intros i Hi. apply Hsub, unique_In, in_map_iff in Hi as (r & <- & Hr).
      by apply name_has_match. }
    destruct (click_tables t selected number_input Hnd Hpos)
      as (res & Hres & _ & Hord).
    { destruct Hpos as (i & Hi & _). exists i. split; [exact Hi|].
      by apply has_match_spec, Hall. }
    exists res. split; [exact Hres|].
    by rewrite Hord, filter_all_true.
Qed.

Lemma on_calculate_options_witness :
  exists names,
    options pantry = Ok names
    /\ names = ["Flour"; "Sugar"]
    /\ exists res,
         click pantry ["Sugar"; "Flour"] (fun i => if String.eqb i "Flour" then 5 else 0)
           = Ok (Tables res)
         /\ map fst res = ["Sugar"; "Flour"].
Proof.
  destruct (on_calculate_options pantry ["Sugar"; "Flour"]
              (fun i => if String.eqb i "Flour" then 5 else 0))
    as (names & Hn & _ & _ & H).
  exists names. split; [exact Hn|].
  injection Hn as <-. split; [reflexivity|]. apply H.
  - repeat constructor; simpl; intuition discriminate.
  - simpl. tauto.
  - exists "Flour". split; [by right; left|reflexivity].
Defined.

(** ** The store during an allocation *)

Lemma dict_set_values {V : Type} (key : string) (v v' : V) (d : list (string * V)) :
  In v' (map snd (dict_set key v d)) -> v' = v \/ In v' (map snd d).
Proof.
  induction d as [|[k x] d IH]; simpl.
  - intros [<-|[]]. by left.
  - destruct (String.eqb k key); simpl.
    + intros [<-|H]; [by left|by right; right].
    + intros [<-|H]; [by right; left|].
      destruct (IH H) as [->|?]; [by left|by right; right].
Qed.

Lemma dict_set_NoDup {V : Type} (key : string) (v : V) (d : list (string * V)) :
  List.NoDup (map snd d) -> ~ In v (map snd d) ->
  List.NoDup (map snd (dict_set key v d)).
Proof.
  induction d as [|[k x] d IH]; simpl; intros Hnd Hv.
  - constructor; [by intros []|constructor].
  - apply List.NoDup_cons_iff in Hnd as [Hx Hnd].
    destruct (String.eqb k key); simpl; constructor.
    + tauto.
    + exact Hnd.
    + intros H. apply dict_set_values in H as [->|H]; tauto.
    + apply IH; tauto.
Qed.

(** The loop again, with the references it returns: they are distinct and
    denote objects the loop allocated or was given. *)
Lemma allocate_loop_locs (t : Table) (df : loc) (items : list (string * Q)) :
  forall (h : list object) (m : list memo_entry) (d : list (string * loc))
         (acc : list (string * Frame)) (n : nat),
    h !! df = Some (ODataFrame t) ->
    memo_ok m ->
    deref_dict (mkStore h m) d = Ok acc ->
    List.NoDup (map snd d) ->
    Forall (fun l => n <= l < length h)%nat (map snd d) ->
    (n <= length h)%nat ->
    exists d' extra m',
      allocate_loop df items d (mkStore h m) = (Ok d', mkStore (h ++ extra) m')
      /\ deref_dict (mkStore (h ++ extra) m') d' = Ok (allocations t items acc)
      /\ memo_ok m'
      /\ List.NoDup (map snd d')
      /\ Forall (fun l => n <= l < length (h ++ extra))%nat (map snd d').
Proof.
  induction items as [|[item quantity] items IH];
    intros h m d acc n Hdf Hm Hd Hnd Hlt Hn.
  - exists d, [], m. rewrite app_nil_r. by repeat split.
  - destruct (cached_run h m df t item Hdf Hm) as (extra & m1 & Hrun & Hm1 & _).
    unfold shares in Hrun. cbn [allocations].
    destruct (proportions t item) as [e|].
    + rewrite (allocate_loop_some _ _ quantity items d _ _ _ _ _ Hrun).
      set (f := allocation_frame _ _ _).
      destruct (IH ((h ++ extra) ++ [OFrame f]) m1
                  (dict_set item (length (h ++ extra)) d)
                  (dict_set item f acc) n)
        as (d' & extra' & m' & Hl & Hd' & Hm' & Hnd' & Hlt').
      * by apply lookup_app_l_Some, lookup_app_l_Some.
      * done.
      * apply deref_dict_set; [|apply lookup_snoc].
        rewrite <- app_assoc. by eapply deref_dict_app.
      * apply dict_set_NoDup; [exact Hnd|]. intros Hin.
        rewrite List.Forall_forall in Hlt. specialize (Hlt _ Hin).
        rewrite length_app in Hlt. lia.
      * apply List.Forall_forall. intros l Hl.
        apply dict_set_values in Hl as [->|Hl].
        -- rewrite !length_app. simpl. lia.
        -- rewrite List.Forall_forall in Hlt. specialize (Hlt _ Hl).
           rewrite !length_app. lia.
      * rewrite !length_app. lia.
      * exists d', (extra ++ [OFrame f] ++ extra'), m'.
        clear IH. repeat rewrite <- app_assoc in *. by repeat split.
    + rewrite (allocate_loop_none _ _ quantity items d _ _ Hrun).
      destruct (IH (h ++ extra) m1 d acc n)
        as (d' & extra' & m' & Hl & Hd' & Hm' & Hnd' & Hlt').
      * by apply lookup_app_l_Some.
      * done.
      * by eapply deref_dict_app.
      * exact Hnd.
      * eapply Forall_impl; [exact Hlt|]. intros l Hl. cbv beta in *.
        rewrite length_app. lia.
      * rewrite length_app. lia.
      * exists d', (extra ++ extra'), m'.
        clear IH. repeat rewrite <- app_assoc in *. by repeat split.
Qed.

(** X4.  From any store that holds the table and a sound memo,
    [allocate_quantity] returns without raising; its tables are those of a
    fresh session; every object that existed stays as it was, the table
    included; the memo stays sound; and the frames it returns are new
    objects, no two of them the same. *)
Theorem allocate_quantity_store (s : store) (df : loc) (t : Table)
  (requests : list (string * Q)) :
  heap s !! df = Some (ODataFrame t) ->
  memo_ok (memo s) ->
  exists d s',
    allocate_quantity df requests s = (Ok d, s')
    /\ deref_dict s' d = allocate t requests
    /\ extends s s'
    /\ heap s' !! df = Some (ODataFrame t)
    /\ memo_ok (memo s')
    /\ List.NoDup (map snd d)
    /\ Forall (fun l => length (heap s) <= l < length (heap s'))%nat (map snd d).
Proof.
  destruct s as [h m]. cbn [heap memo]. intros Hdf Hm.
  destruct (allocate_loop_locs t df requests h m [] [] (length h) Hdf Hm eq_refl)
    as (d & extra & m' & Hrun & Hd & Hm' & Hnd & Hlt);
    [constructor|constructor|lia|].
  exists d, (mkStore (h ++ extra) m'). cbn [heap memo].
  split; [exact Hrun|]. split; [by rewrite allocate_denotes|].
  split; [by exists extra|]. split; [by apply lookup_app_l_Some|].
  by repeat split.
Qed.

Lemma allocate_quantity_store_witness :
  exists d s',
    allocate_quantity 0%nat [("flour", 10); ("Sugar", 4)] (session pantry) = (Ok d, s')
    /\ deref_dict s' d = allocate pantry [("flour", 10); ("Sugar", 4)]
    /\ heap s' !! 0%nat = Some (ODataFrame pantry)
    /\ List.NoDup (map snd d).
Proof.
  destruct (allocate_quantity_store (session pantry) 0%nat pantry
              [("flour", 10); ("Sugar", 4)] eq_refl memo_ok_nil)
    as (d & s' & H1 & H2 & _ & H3 & _ & H4 & _).
  by exists d, s'.
Defined.

(** X5.  Pressing the button again: a second [allocate_quantity] with the
    same request, run in the store the first one left, returns tables with
    the same content (the proportions now come from the memo), and the
    tables of the first run are still what they were. *)
Theorem allocate_quantity_again (s : store) (df : loc) (t : Table)
  (requests : list (string * Q)) :
  heap s !! df = Some (ODataFrame t) ->
  memo_ok (memo s) ->
  exists d1 s1 d2 s2 res,
    allocate_quantity df requests s = (Ok d1, s1)
    /\ allocate_quantity df requests s1 = (Ok d2, s2)
    /\ deref_dict s1 d1 = Ok res
    /\ deref_dict s2 d2 = Ok res
    /\ deref_dict s2 d1 = Ok res
    /\ (forall l, In l (map snd d1) -> ~ In l (map snd d2)).
Proof.
  destruct s as [h m]. cbn [heap memo]. intros Hdf Hm.
  destruct (allocate_loop_locs t df requests h m [] [] (length h) Hdf Hm eq_refl)
    as (d1 & extra & m1 & Hrun1 & Hd1 & Hm1 & _ & Hlt1);
    [constructor|constructor|lia|].
  assert (Hdf1 : (h ++ extra) !! df = Some (ODataFrame t))
    by (by apply lookup_app_l_Some).
  destruct (allocate_loop_locs t df requests (h ++ extra) m1 [] []
              (length (h ++ extra)) Hdf1 Hm1 eq_refl)
    as (d2 & extra2 & m2 & Hrun2 & Hd2 & Hm2 & _ & Hlt2);
    [constructor|constructor|lia|].
  exists d1, (mkStore (h ++ extra) m1), d2, (mkStore ((h ++ extra) ++ extra2) m2),
         (allocations t requests []).
  split; [exact Hrun1|]. split; [exact Hrun2|]. split; [exact Hd1|].
  split; [exact Hd2|]. split; [by eapply deref_dict_app|].
  intros l H1 H2. rewrite List.Forall_forall in Hlt1, Hlt2.
  specialize (Hlt1 _ H1). specialize (Hlt2 _ H2). lia.
Qed.

Lemma allocate_quantity_again_witness :
  exists d1 s1 d2 s2 res,
    allocate_quantity 0%nat [("flour", 10)] (session pantry) = (Ok d1, s1)
    /\ allocate_quantity 0%nat [("flour", 10)] s1 = (Ok d2, s2)
    /\ deref_dict s1 d1 = Ok res
    /\ deref_dict s2 d2 = Ok res
    /\ deref_dict s2 d1 = Ok res.
Proof.
  destruct (allocate_quantity_again (session pantry) 0%nat pantry
              [("flour", 10)] eq_refl memo_ok_nil)
    as (d1 & s1 & d2 & s2 & res & H1 & H2 & H3 & H4 & H5 & _).
  by exists d1, s1, d2, s2, res.
Defined.

(** ** The memo *)

Lemma cache_hit (h : list object) (m : list memo_entry) (df : loc) (t : Table)
  (identifier : string) (v : option Frame) :
  h !! df = Some (ODataFrame t) ->
  memo_lookup (t, identifier) m = Some v ->
  calculate_proportion df identifier (mkStore h m) = unpickle v (mkStore h m).
Proof.
  intros Hdf Hv. unfold calculate_proportion, cache_data.
  erewrite run_bind by (by apply run_read_dataframe).
  erewrite run_bind by reflexivity. cbn [memo]. by rewrite Hv.
Qed.

(** X6.  After a call of [calculate_proportion], the same call is served
    from the memo: the function does not run again (no frame is filtered,
    no Series built), the memo is left as it is, and the only new object
    is the copy that is returned, or none when the result is [None]. *)
Theorem calculate_proportion_cached (s : store) (df : loc) (t : Table)
  (identifier : string) :
  heap s !! df = Some (ODataFrame t) ->
  memo_ok (memo s) ->
  exists r1 s1,
    calculate_proportion df identifier s = (Ok r1, s1)
    /\ memo_lookup (t, identifier) (memo s1) = Some (shares t identifier)
    /\ calculate_proportion df identifier s1 =
         match shares t identifier with
         | None => (Ok None, s1)
         | Some f => (Ok (Some (length (heap s1))),
                      mkStore (heap s1 ++ [OFrame f]) (memo s1))
         end.
Proof.
  destruct s as [h m]. cbn [heap memo]. intros Hdf Hm.
  destruct (cached_run h m df t identifier Hdf Hm)
    as (extra & m1 & Hrun & _ & Hlook).
  destruct (shares t identifier) as [f|] eqn:Hsh.
  - do 2 eexists. split; [exact Hrun|]. cbn [heap memo]. split; [exact Hlook|].
    rewrite (cache_hit _ _ _ t _ (Some f)); [reflexivity| |exact Hlook].
    by apply lookup_app_l_Some, lookup_app_l_Some.
  - do 2 eexists. split; [exact Hrun|]. cbn [heap memo]. split; [exact Hlook|].
    rewrite (cache_hit _ _ _ t _ None); [reflexivity| |exact Hlook].
    by apply lookup_app_l_Some.
Qed.

Lemma calculate_proportion_cached_witness :
  exists r1 s1,
    calculate_proportion 0%nat "FLOUR" (session pantry) = (Ok r1, s1)
    /\ length (heap s1) = 6%nat
    /\ exists f, calculate_proportion 0%nat "FLOUR" s1 =
                   (Ok (Some 6%nat), mkStore (heap s1 ++ [OFrame f]) (memo s1)).
Proof.
  destruct (calculate_proportion_cached (session pantry) 0%nat pantry "FLOUR"
              eq_refl memo_ok_nil) as (r1 & s1 & H1 & _ & H2).
  exists r1, s1. split; [exact H1|].
  assert (E : length (heap s1) = 6%nat).
  { vm_compute in H1. by injection H1 as _ <-. }
  split; [exact E|]. rewrite E in H2. eexists. exact H2.
Defined.

(** ** What the shares depend on *)

Lemma fin_eq (a b : Q) : a == b -> fin a = fin b.
Proof. intros H. unfold fin. f_equal. by apply Qred_complete. Qed.

Lemma sorted_keys_eq (l l' : list string) :
  StronglySorted (fun a b => String.compare a b = Lt) l ->
  StronglySorted (fun a b => String.compare a b = Lt) l' ->
  (forall x, In x l <-> In x l') ->
  l = l'.
Proof.
  intros Hs. revert l'. induction Hs as [|a l Hs IH Ha]; intros l' Hs' Heq.
  - destruct l' as [|b l']; [done|]. by destruct (proj2 (Heq b) (or_introl eq_refl)).
  - destruct Hs' as [|b l' Hs' Hb].
    { by destruct (proj1 (Heq a) (or_introl eq_refl)). }
    rewrite List.Forall_forall in Ha, Hb.
    assert (E : a = b).
    { destruct (proj1 (Heq a) (or_introl eq_refl)) as [E|Hin]; [done|].
      destruct (proj2 (Heq b) (or_introl eq_refl)) as [E|Hin']; [done|].
      specialize (Ha _ Hin'). specialize (Hb _ Hin).
      rewrite String.compare_antisym, Ha in Hb. discriminate. }
    subst b. f_equal. apply IH; [exact Hs'|]. intros x. split; intros Hx.
    + destruct (proj1 (Heq x) (or_intror Hx)) as [<-|H]; [|done].
      specialize (Ha _ Hx). by rewrite string_compare_refl in Ha.
    + destruct (proj2 (Heq x) (or_intror Hx)) as [<-|H]; [|done].
      specialize (Hb _ Hx). by rewrite string_compare_refl in Hb.
Qed.

Lemma groups_canonical (g : list (string * Q)) :
  List.NoDup (map fst g) ->
  map (fun e => (fst e, fin (snd e))) g =
    map (fun d => (d, fin (group_value d g))) (map fst g).
Proof.
  intros Hnd. rewrite map_map. apply map_ext_in. intros [d s] Hin. cbn [fst snd].
  f_equal. apply fin_eq. symmetry. by apply group_value_present.
Qed.

(** The Series of line 59: the departments present, in key order, each
    with its total. *)
Lemma groupby_entries (rows : Table) :
  entries (groupby_sum rows) =
    map (fun d => (d, fin (dept_total d rows))) (map fst (groups_from [] rows)).
Proof.
  unfold groupby_sum. cbn [entries]. fold (groups_from [] rows).
  destruct (groups_spec rows) as (Hnd & _ & _ & _). cbv zeta in Hnd.
  rewrite (groups_canonical _ Hnd). apply map_ext. intros d. f_equal.
  apply fin_eq. rewrite groups_from_value. simpl. ring.
Qed.











Lemma unsorted_form (rows : Table) :
  exists T,
    T == total rows
    /\ unsorted rows =
         map (fun d => (d, Num.mul (div (fin (dept_total d rows)) (Fin T)) (of_Z 100)))
             (map fst (groups_from [] rows)).
Proof.
  destruct (series_sum_groupby rows) as (T & HT & E). exists T.
  split; [exact E|]. unfold unsorted. rewrite HT, groupby_entries.
  by rewrite map_map.
Qed.









(** ** Rounding *)

Lemma Qfloor_bounds (v : Q) :
  inject_Z (Qfloor v) <= v /\ v < inject_Z (Qfloor v) + 1.
Proof.
  split; [apply Qfloor_le|].
  generalize (Qlt_floor v). rewrite inject_Z_plus. by intros H.
Qed.

(** [numpy.rint] moves a value by a half at most. *)
Lemma rint_near (v : Q) : Qabs (inject_Z (rint v) - v) <= 1 # 2.
Proof.
  destruct (Qfloor_bounds v) as [Hl Hu]. apply Qabs_Qle_condition.
  unfold rint. cbv zeta.
  destruct (Qcompare (v - inject_Z (Qfloor v)) (1 # 2)) eqn:E.
  - apply Qeq_alt in E.
    destruct (Z.even (Qfloor v));
      [|rewrite inject_Z_plus; change (inject_Z 1) with 1]; split; lra.
  - apply Qlt_alt in E. split; lra.
  - apply Qgt_alt in E. rewrite inject_Z_plus. change (inject_Z 1) with 1.
    split; lra.
Qed.

Lemma rint_range (v : Q) : (Qfloor v <= rint v <= Qfloor v + 1)%Z.
Proof.
  unfold rint. cbv zeta.
  destruct (Qcompare _ _); [destruct (Z.even _)|..]; lia.
Qed.

(** [numpy.rint] keeps the order. *)
Lemma rint_mono (a b : Q) : a <= b -> (rint a <= rint b)%Z.
Proof.
  intros Hab. pose proof (Qfloor_resp_le _ _ Hab) as Hf.
  destruct (Z_lt_le_dec (Qfloor a) (Qfloor b)) as [Hlt|Hge].
  - pose proof (rint_range a). pose proof (rint_range b). lia.
  - assert (E : Qfloor a = Qfloor b) by lia.
    unfold rint. cbv zeta. rewrite E.
    destruct (Qcompare (a - inject_Z (Qfloor b)) (1 # 2)) eqn:Ea;
      [apply Qeq_alt in Ea|apply Qlt_alt in Ea|apply Qgt_alt in Ea];
      (destruct (Qcompare (b - inject_Z (Qfloor b)) (1 # 2)) eqn:Eb;
       [apply Qeq_alt in Eb|apply Qlt_alt in Eb|apply Qgt_alt in Eb]);
      destruct (Z.even (Qfloor b)); try lia; exfalso; lra.
Qed.

Lemma value_of_Z (z : Z) : value_of (of_Z z) = inject_Z z.
Proof. reflexivity. Qed.

(** The column of allocated quantities against the exact shares of the
    quantity. *)
Lemma allocated_column (quantity : Q) (pcts : list num) :
  Forall (fun x => is_finite x = true) pcts ->
  Forall (fun x => is_finite x = true) (map (allocated quantity) pcts)
  /\ Forall2 (fun p a => exists x z,
                p = Fin x /\ a = of_Z z
                /\ Qabs (inject_Z z - quantity * x / 100) <= 1 # 2)
             pcts (map (allocated quantity) pcts)
  /\ Qabs (Qsum (map value_of (map (allocated quantity) pcts))
           - quantity * Qsum (map value_of pcts) / 100)
     <= inject_Z (Z.of_nat (length pcts)) * (1 # 2).
Proof.
  induction 1 as [|p pcts Hp _ (IH1 & IH2 & IH3)].
  - split; [constructor|]. split; [constructor|]. cbn [map length].
    change (Qsum []) with 0. change (inject_Z (Z.of_nat 0)) with 0.
    assert (E : quantity * 0 / 100 == 0) by field. rewrite E.
    apply Qabs_Qle_condition. split; lra.
  - destruct p as [x| | |]; try discriminate.
    cbn [map]. rewrite allocated_finite.
    pose proof (rint_near (quantity * x / 100)) as Hr.
    split; [by constructor|]. split.
    + constructor; [|exact IH2]. by exists x, (rint (quantity * x / 100)).
    + rewrite !Qsum_cons, value_of_Z. cbn [value_of length].
      rewrite Nat2Z.inj_succ, <- Z.add_1_r, inject_Z_plus.
      change (inject_Z 1) with 1.
      assert (E : quantity * (x + Qsum (map value_of pcts)) / 100
                  == quantity * x / 100
                     + quantity * Qsum (map value_of pcts) / 100) by field.
      rewrite E.
      apply Qabs_Qle_condition in Hr, IH3. apply Qabs_Qle_condition.
      split; lra.
Qed.

(** X9.  The allocated quantities of an item need not add up to the
    quantity entered, but they stay close: when the matching records have
    a non-zero total, every allocated quantity is a whole number within a
    half of its exact share [quantity * percentage / 100], and the column
    differs from the quantity by at most a half per department. *)
Theorem allocate_quantity_drift (t : Table) (requests : list (string * Q))
  (res : list (string * Frame)) (item : string) (f : Frame) :
  allocate t requests = Ok res ->
  In (item, f) res ->
  ~ total (matching t item) == 0 ->
  exists quantity depts pcts allocs,
    In (item, quantity) requests
    /\ f = allocation_frame depts pcts allocs
    /\ length pcts = length depts
    /\ Forall2 (fun p a => exists x z,
                  p = Fin x /\ a = of_Z z
                  /\ Qabs (inject_Z z - quantity * x / 100) <= 1 # 2)
               pcts allocs
    /\ exists s, column_sum allocs = Fin s
                 /\ Qabs (s - quantity)
                    <= inject_Z (Z.of_nat (length depts)) * (1 # 2).
Proof.
  intros Hres Hin Hne. rewrite allocate_denotes in Hres. injection Hres as <-.
  apply allocations_In in Hin as [[]|(q & e & Hq & He & ->)].
  rewrite (proportions_some _ _ (total_nonempty _ Hne)) in He.
  injection He as <-. set (rows := matching t item) in *.
  set (e := sort_values_desc (unsorted rows)).
  destruct (unsorted_finite rows Hne) as [Hfin Hsum].
  assert (Hp : Permutation (map snd e) (map snd (unsorted rows))).
  { apply Permutation_map, sort_values_desc_perm. }
  assert (Hfin' : Forall (fun x => is_finite x = true) (map snd e)).
  { by rewrite Hp. }
  destruct (allocated_column q _ Hfin') as (Ha & Hnear & Hdrift).
  destruct (column_sum_finite _ Ha) as (s & Hs & Es).
  exists q, (map fst e), (map snd e), (map (allocated q) (map snd e)).
  split; [exact Hq|]. split; [reflexivity|].
  split; [by rewrite !length_map|]. split; [exact Hnear|].
  exists s. split; [exact Hs|].
  assert (H100 : Qsum (map value_of (map snd e)) == 100).
  { rewrite <- Hsum. apply Qsum_perm. by apply Permutation_map. }
  rewrite length_map in Hdrift. rewrite length_map.
  rewrite Es. rewrite H100 in Hdrift.
  assert (E : q * 100 / 100 == q) by field.
  by rewrite E in Hdrift.
Qed.

Lemma allocate_quantity_drift_witness :
  exists res f,
    allocate pantry [("flour", 7)] = Ok res
    /\ In ("flour", f) res
    /\ exists quantity depts pcts allocs,
         In ("flour", quantity) [("flour", 7)]
         /\ f = allocation_frame depts pcts allocs
         /\ length pcts = length depts
         /\ Forall2 (fun p a => exists x z,
                       p = Fin x /\ a = of_Z z
                       /\ Qabs (inject_Z z - quantity * x / 100) <= 1 # 2)
                    pcts allocs
         /\ exists s, column_sum allocs = Fin s
                      /\ Qabs (s - quantity)
                         <= inject_Z (Z.of_nat (length depts)) * (1 # 2).
Proof.
  eexists. eexists. split; [vm_compute; reflexivity|].
  split; [left; reflexivity|].
  eapply (allocate_quantity_drift pantry).
  - vm_compute. reflexivity.
  - left. reflexivity.
  - vm_compute. discriminate.
Defined.

(** ** Bounds *)

Lemma dept_total_le (d : string) (rows : Table) :
  Forall (fun r => 0 <= QUANTITY r) rows ->
  0 <= dept_total d rows <= total rows.
Proof.
  unfold dept_total, total.
  induction 1 as [|r rows Hr _ [IH1 IH2]]; simpl; [split; discriminate|].
  destruct (String.eqb (DEPARTMENT_CAT r) d); simpl; split; lra.
Qed.

Lemma percentage_value (gs tot : Q) :
  ~ tot == 0 ->
  Num.mul (div (fin gs) (Fin tot)) (of_Z 100) = fin (gs / tot * 100).
Proof.
  intros Hne. unfold div, fin.
  destruct (Qsgn tot =? 0)%Z eqn:E; [by apply Qsgn_zero in E|].
  unfold Num.mul, of_Z, fin. f_equal. apply Qred_complete.
  by rewrite !Qred_correct.
Qed.

Lemma unsorted_bounded (rows : Table) :
  Forall (fun r => 0 <= QUANTITY r) rows ->
  0 < total rows ->
  Forall (fun p => exists x, p = Fin x /\ 0 <= x <= 100) (map snd (unsorted rows)).
Proof.
  intros Hq Hpos. destruct (unsorted_form rows) as (T & HT & ->).
  assert (HT0 : ~ T == 0).
  { rewrite HT. intros E. rewrite E in Hpos. discriminate. }
  rewrite map_map. cbn [snd]. apply List.Forall_forall. intros p Hp.
  apply in_map_iff in Hp as (d & <- & _).
  rewrite (percentage_value _ _ HT0). eexists. split; [reflexivity|].
  rewrite Qred_correct, HT.
  destruct (dept_total_le d rows Hq) as [H0 H1].
  set (g := dept_total d rows) in *. set (tt := total rows) in *.
  assert (Hy0 : 0 <= g / tt).
  { apply Qle_shift_div_l; [exact Hpos|]. lra. }
  assert (Hy1 : g / tt <= 1).
  { apply Qle_shift_div_r; [exact Hpos|]. lra. }
  split; lra.
Qed.

(** X10.  With no negative quantity in the table and a positive total
    over the matching records, every percentage lies between 0 and 100;
    and for a quantity that is not negative, every allocated quantity is a
    whole number between 0 and the quantity rounded. *)
Theorem allocate_quantity_bounds (t : Table) (requests : list (string * Q))
  (res : list (string * Frame)) (item : string) (f : Frame) :
  Forall (fun r => 0 <= QUANTITY r) t ->
  allocate t requests = Ok res ->
  In (item, f) res ->
  0 < total (matching t item) ->
  exists quantity depts pcts allocs,
    In (item, quantity) requests
    /\ f = allocation_frame depts pcts allocs
    /\ Forall (fun p => exists x, p = Fin x /\ 0 <= x <= 100) pcts
    /\ (0 <= quantity ->
        Forall (fun a => exists z, a = of_Z z /\ (0 <= z <= rint quantity)%Z)
               allocs).
Proof.
  intros Ht Hres Hin Hpos. rewrite allocate_denotes in Hres.
  injection Hres as <-.
  apply allocations_In in Hin as [[]|(q & e & Hq & He & ->)].
  assert (Hne : ~ total (matching t item) == 0).
  { intros E. rewrite E in Hpos. discriminate. }
  rewrite (proportions_some _ _ (total_nonempty _ Hne)) in He.
  injection He as <-. set (rows := matching t item) in *.
  set (e := sort_values_desc (unsorted rows)).
  assert (Hrows : Forall (fun r => 0 <= QUANTITY r) rows).
  { by apply Forall_filter_keep. }
  assert (Hx : Forall (fun p => exists x, p = Fin x /\ 0 <= x <= 100) (map snd e)).
  { eapply Permutation_Forall; [|by apply unsorted_bounded].
    symmetry. apply Permutation_map, sort_values_desc_perm. }
  exists q, (map fst e), (map snd e), (map (allocated q) (map snd e)).
  split; [exact Hq|]. split; [reflexivity|]. split; [exact Hx|].
  intros Hq0. rewrite Forall_map. eapply Forall_impl; [exact Hx|].
  intros p (x & -> & Hx0 & Hx1). rewrite allocated_finite.
  eexists. split; [reflexivity|].
  assert (Hy0 : 0 <= x / 100) by (apply Qle_shift_div_l; [reflexivity|lra]).
  assert (Hy1 : x / 100 <= 1) by (apply Qle_shift_div_r; [reflexivity|lra]).
  assert (E : q * x / 100 == q * (x / 100)) by field.
  split.
  - apply rint_nonneg. rewrite E. by apply Qmult_le_0_compat.
  - apply rint_mono. rewrite E.
    assert (H1 : (x / 100) * q <= 1 * q) by (by apply Qmult_le_compat_r).
    lra.
Qed.

Lemma allocate_quantity_bounds_witness :
  exists res f,
    allocate pantry [("flour", 7)] = Ok res
    /\ In ("flour", f) res
    /\ exists quantity depts pcts allocs,
         In ("flour", quantity) [("flour", 7)]
         /\ f = allocation_frame depts pcts allocs
         /\ Forall (fun p => exists x, p = Fin x /\ 0 <= x <= 100) pcts
         /\ (0 <= quantity ->
             Forall (fun a => exists z, a = of_Z z /\ (0 <= z <= rint quantity)%Z)
                    allocs).
Proof.
  eexists. eexists. split; [vm_compute; reflexivity|].
  split; [left; reflexivity|].
  eapply (allocate_quantity_bounds pantry).
  - repeat constructor; discriminate.
  - vm_compute. reflexivity.
  - left. reflexivity.
  - reflexivity.
Defined.

(** ** An item of one department *)

Lemma keys_single (d : string) (rows : Table) :
  rows <> [] ->
  (forall r, In r rows -> DEPARTMENT_CAT r = d) ->
  map fst (groups_from [] rows) = [d].
Proof.
  intros Hne Hd. apply sorted_keys_eq.
  - apply (groups_from_sorted _ []). constructor.
  - repeat constructor.
  - intros d'. rewrite groups_from_keys. simpl. split.
    + intros [[]|(r & Hr & <-)]. left. symmetry. by apply Hd.
    + intros [<-|[]]. right. destruct rows as [|r rows]; [done|].
      exists r. split; [by left|]. apply Hd. by left.
Qed.

Lemma unsorted_single (d : string) (rows : Table) :
  (forall r, In r rows -> DEPARTMENT_CAT r = d) ->
  ~ total rows == 0 ->
  unsorted rows = [(d, Fin 100)].
Proof.
  intros Hd Hne. destruct (unsorted_form rows) as (T & HT & ->).
  rewrite (keys_single d rows (total_nonempty _ Hne) Hd). cbn [map].
  assert (HT0 : ~ T == 0) by (by rewrite HT).
  rewrite (percentage_value _ _ HT0). do 2 f_equal.
  change (Fin 100) with (fin 100). apply fin_eq.
  assert (E : dept_total d rows == T).
  { rewrite HT. unfold dept_total. rewrite filter_all_true; [reflexivity|].
    intros r Hr. apply String.eqb_eq. by apply Hd. }
  rewrite E. field. exact HT0.
Qed.

(** X11.  An item all of whose matching records belong to one department,
    with a non-zero total, gets one line: that department, 100 per cent,
    and the quantity entered, rounded to a whole number. *)
Theorem allocate_quantity_single (t : Table) (item d : string) (quantity : Q) :
  (forall r, In r (matching t item) -> DEPARTMENT_CAT r = d) ->
  ~ total (matching t item) == 0 ->
  compute_shares t item = Ok (Some (shares_frame [d] [Fin 100]))
  /\ allocate t [(item, quantity)] =
       Ok [(item, allocation_frame [d] [Fin 100] [of_Z (rint quantity)])].
Proof.
  intros Hd Hne.
  assert (Hp : proportions t item = Some [(d, Fin 100)]).
  { rewrite (proportions_some _ _ (total_nonempty _ Hne)).
    by rewrite (unsorted_single d _ Hd Hne). }
  split.
  - rewrite compute_shares_denotes. unfold shares. by rewrite Hp.
  - rewrite allocate_denotes. cbn [allocations]. rewrite Hp.
    cbn [map fst snd dict_set]. rewrite allocated_finite.
    do 6 f_equal. apply rint_comp. field.
Qed.

Lemma allocate_quantity_single_witness :
  compute_shares pantry "sugar" = Ok (Some (shares_frame ["pastry"] [Fin 100]))
  /\ allocate pantry [("sugar", 5 # 2)] =
       Ok [("sugar", allocation_frame ["pastry"] [Fin 100] [of_Z (rint (5 # 2))])].
Proof.
  apply allocate_quantity_single.
  - intros r [<-|[]]. reflexivity.
  - vm_compute. discriminate.
Defined.

(** ** The sheet, lines 36-40 *)





(** ** The private key, line 22 *)

Lemma private_key_step (c d : ascii) (rest : string) :
  private_key (String c (String d rest)) =
    if Ascii.eqb c "\"%char && Ascii.eqb d "n"%char
    then String "010"%char (private_key rest)
    else String c (private_key (String d rest)).
Proof. reflexivity. Qed.

Lemma has_escaped_newline_step (c d : ascii) (rest : string) :
  has_escaped_newline (String c (String d rest)) =
    Ascii.eqb c "\"%char && Ascii.eqb d "n"%char
    || has_escaped_newline (String d rest).
Proof. reflexivity. Qed.

(** The first character of the result is the first character of the text,
    or the line feed that replaced it. *)
Lemma private_key_head (d : ascii) (rest : string) :
  exists e tail,
    private_key (String d rest) = String e tail
    /\ (e = d \/ e = "010"%char).
Proof.
  destruct rest as [|d' rest]; [by exists d, EmptyString; split; [|left]|].
  rewrite private_key_step.
  destruct (Ascii.eqb d "\"%char && Ascii.eqb d' "n"%char);
    eexists; eexists; (split; [reflexivity|]); [by right|by left].
Qed.

Lemma private_key_clean (n : nat) :
  forall s, (String.length s <= n)%nat ->
            has_escaped_newline (private_key s) = false.
Proof.
  induction n as [|n IH]; intros s Hn.
  - destruct s; [reflexivity|simpl in Hn; lia].
  - destruct s as [|c [|d rest]]; [reflexivity|reflexivity|].
    rewrite private_key_step. simpl in Hn.
    destruct (Ascii.eqb c "\"%char && Ascii.eqb d "n"%char) eqn:E.
    + assert (H : has_escaped_newline (private_key rest) = false).
      { apply IH. lia. }
      destruct (private_key rest) as [|e tail] eqn:Er; [reflexivity|].
      rewrite has_escaped_newline_step, H. reflexivity.
    + assert (H : has_escaped_newline (private_key (String d rest)) = false).
      { apply IH. simpl. lia. }
      destruct (private_key_head d rest) as (e & tail & Eh & He).
      rewrite Eh in *. rewrite has_escaped_newline_step, H, orb_false_r.
      destruct He as [->| ->]; [exact E|].
      by rewrite andb_false_r.
Qed.

Lemma private_key_fixed (s : string) :
  has_escaped_newline s = false -> private_key s = s.
Proof.
  induction s as [|c s IH]; [reflexivity|].
  destruct s as [|d rest]; [reflexivity|].
  rewrite private_key_step, has_escaped_newline_step.
  intros H. apply orb_false_iff in H as [-> H]. f_equal. by apply IH.
Qed.

(** X13.  Line 22 leaves no escaped line feed in the private key: the
    result has no backslash followed by [n], a second replacement would
    change nothing, and a text without such a pair is returned as it
    is. *)
Theorem private_key_unescaped (s : string) :
  has_escaped_newline (private_key s) = false
  /\ private_key (private_key s) = private_key s
  /\ (has_escaped_newline s = false -> private_key s = s).
Proof.
  assert (H : has_escaped_newline (private_key s) = false).
  { by apply (private_key_clean (String.length s)). }
  split; [exact H|]. split; [by apply private_key_fixed|].
  apply private_key_fixed.
Qed.

Lemma private_key_unescaped_witness :
  has_escaped_newline (private_key "-----BEGIN-----\nMIIE\\n\n-----END-----\n") = false
  /\ (has_escaped_newline "MIIE" = false -> private_key "MIIE" = "MIIE").
Proof.
  split.
  - apply (private_key_unescaped "-----BEGIN-----\nMIIE\\n\n-----END-----\n").
  - apply (private_key_unescaped "MIIE").
Defined.
